(** * Result-processing core of the model-search page

    A shallow embedding of the client-side pipeline of [page.tsx]
    (tag display filter, base-name extractor, group aggregator, facet
    extractor, filter/sort/limit pipeline and the search handler) together
    with the properties the specification states about it.

    Conventions of the embedding:
    - a JavaScript string is a [string]; the model covers strings of ASCII
      code units, for which [length], [split], [startsWith], [toLowerCase]
      and the default ordering of [Array.prototype.sort] are the byte-wise
      operations used below;
    - [downloads] is an integer ([Z]); [distance] is a finite number, taken
      as a rational ([Q]): the numbers a JSON body can carry are finite, and
      on finite doubles the sign of [a - b] is the sign of the exact
      difference, which is all the comparators look at;
    - a thrown exception is the [None] of an [option] (or the [inl] of a sum
      where the thrown value is inspected). *)

From Stdlib Require Import List Bool Arith ZArith QArith Lia.
From Stdlib Require Import Ascii String.
From Stdlib Require Import Permutation Sorted.
From Stdlib Require Import OrderedTypeEx.
From Stdlib Require DecimalString.
Import ListNotations.

Local Open Scope string_scope.
Local Open Scope list_scope.
Local Open Scope Z_scope.

(** ** JavaScript primitives used by the page *)

Module Js.

(** [s.split(sep)] for a one-character separator: never the empty array. *)
Fixpoint split (sep : ascii) (s : string) : list string :=
  match s with
  | EmptyString => [EmptyString]
  | String c s' =>
      if Ascii.eqb c sep then EmptyString :: split sep s'
      else match split sep s' with
           | [] => [String c EmptyString]
           | h :: t => String c h :: t
           end
  end.

(** [c] does not occur in [s]. *)
Fixpoint lacks (c : ascii) (s : string) : bool :=
  match s with
  | EmptyString => true
  | String d s' => negb (Ascii.eqb d c) && lacks c s'
  end.

Definition lowerAscii (c : ascii) : ascii :=
  let n := N_of_ascii c in
  if ((65 <=? n) && (n <=? 90))%N then ascii_of_N (n + 32) else c.

(** The string is made of ASCII code units (below 128). *)
Fixpoint isAscii (s : string) : bool :=
  match s with
  | EmptyString => true
  | String c s' => (N_of_ascii c <? 128)%N && isAscii s'
  end.

(** [s.toLowerCase()] on a string of ASCII code units, where the method
    maps [A]-[Z] to [a]-[z] one code unit at a time.  Outside ASCII the
    method follows the Unicode case mappings, which can change the number
    of code units; that is not modelled. *)
Fixpoint toLowerCase (s : string) : string :=
  match s with
  | EmptyString => EmptyString
  | String c s' => String (lowerAscii c) (toLowerCase s')
  end.

(** [s.startsWith(p)]. *)
Definition startsWith (s p : string) : bool := String.prefix p s.

(** [arr.includes(x)] on an array of strings. *)
Definition includes (arr : list string) (x : string) : bool :=
  existsb (String.eqb x) arr.

(** White space of [String.prototype.trim] within ASCII. *)
Definition isWhite (c : ascii) : bool :=
  let n := N_of_ascii c in
  ((n =? 32) || ((9 <=? n) && (n <=? 13)))%N.

(** [!s.trim()]: the trimmed string is empty. *)
Fixpoint blank (s : string) : bool :=
  match s with
  | EmptyString => true
  | String c s' => isWhite c && blank s'
  end.

(** [arr.slice(0, n)] for an integer [n]: a negative end counts from the
    end of the array. *)
Definition slice0 {A : Type} (arr : list A) (n : Z) : list A :=
  if n <? 0
  then firstn (Z.to_nat (Z.max 0 (Z.of_nat (List.length arr) + n))) arr
  else firstn (Z.to_nat n) arr.

(** Decimal rendering of a number in a template literal. *)
Definition numberToString (n : Z) : string :=
  DecimalString.NilZero.string_of_int (Z.to_int n).

(** [arr.sort(cmp)]: the sort is stable, and for a consistent comparator
    its result is the only stable ordered arrangement of [arr].  [le a b]
    stands for [cmp(a, b) <= 0]. *)
Section Sort.
Context {A : Type} (le : A -> A -> bool).

Fixpoint insert (x : A) (l : list A) : list A :=
  match l with
  | [] => [x]
  | y :: l' => if le x y then x :: y :: l' else y :: insert x l'
  end.

Fixpoint sort (l : list A) : list A :=
  match l with
  | [] => []
  | x :: l' => insert x (sort l')
  end.
End Sort.

(** [Math.min(...xs)] and [Math.max(...xs)] on integers; [None] stands for
    the [Infinity] (resp. [-Infinity]) of an empty argument list. *)
Definition mathMin (xs : list Z) : option Z :=
  fold_left (fun acc x => Some (match acc with
                                | None => x
                                | Some y => Z.min y x
                                end)) xs None.

Definition mathMax (xs : list Z) : option Z :=
  fold_left (fun acc x => Some (match acc with
                                | None => x
                                | Some y => Z.max y x
                                end)) xs None.

(** A [Set] of strings: insertion order, no duplicates. *)
Definition setAdd (set : list string) (x : string) : list string :=
  if includes set x then set else set ++ [x].

End Js.

(** ** Data model *)

(** [interface ModelResult]; [tags] may be missing in a response, which the
    code guards against ([result.tags &&], [tags || []]). *)
Record ModelResult := mkModel {
  model_id : string;
  tags : option (list string);
  downloads : Z;
  distance : Q;
  model_explanation_gemini : option string
}.

(** ** Tag display filter *)

Definition COMMON_EXCLUDED_TAGS : list string := ["transformers"].

Definition EXCLUDED_TAG_PREFIXES : list string :=
  ["arxiv:"; "base_model:"; "dataset:"; "diffusers:"; "license:"].

Definition filterTagForDisplay (tag : string) : bool :=
  match tag with
  | EmptyString => false
  | _ =>
      let lowerTag := Js.toLowerCase tag in
      (3 <? String.length tag)%nat
      && negb (Js.includes COMMON_EXCLUDED_TAGS lowerTag)
      && negb (existsb (fun prefix => Js.startsWith lowerTag prefix)
                 EXCLUDED_TAG_PREFIXES)
  end.

(** ** Base-name extractor *)

Definition getBaseModelName (modelId : string) : string :=
  let parts := Js.split "/" modelId in
  match parts with
  | p0 :: p1 :: _ =>
      let baseName := hd EmptyString (Js.split "-" p1) in
      p0 ++ "/" ++ baseName
  | p0 :: [] => hd EmptyString (Js.split "-" p0)
  | [] => EmptyString
  end.

(** ** Group aggregator *)

(** [interface GroupedModels]: a plain object created by [{}], used as a map
    from base name to array.  [own] lists the object's own properties in
    creation order; a read falls through to [Object.prototype]. *)
Module JsObject.

Definition t := list (string * list ModelResult).

(** The property names every plain object inherits from [Object.prototype];
    each holds a function (or, for [__proto__], the prototype object): a
    truthy value without a [push] method. *)
Definition PROTOTYPE_KEYS : list string :=
  ["constructor"; "hasOwnProperty"; "isPrototypeOf"; "propertyIsEnumerable";
   "toLocaleString"; "toString"; "valueOf"; "__proto__";
   "__defineGetter__"; "__defineSetter__"; "__lookupGetter__";
   "__lookupSetter__"].

Inductive value :=
| Arr (items : list ModelResult)
| Inherited
| Undefined.

Fixpoint getOwn (o : t) (k : string) : option (list ModelResult) :=
  match o with
  | [] => None
  | (k', v) :: o' => if String.eqb k' k then Some v else getOwn o' k
  end.

(** [o[k]]. *)
Definition get (o : t) (k : string) : value :=
  match getOwn o k with
  | Some v => Arr v
  | None => if Js.includes PROTOTYPE_KEYS k then Inherited else Undefined
  end.

(** Arrays, functions and objects are truthy; [undefined] is not. *)
Definition truthy (v : value) : bool :=
  match v with
  | Undefined => false
  | _ => true
  end.

(** [o[k] = v] for a key that is not [__proto__]: an existing own property
    keeps its place, a new one is created last. *)
Fixpoint set (o : t) (k : string) (v : list ModelResult) : t :=
  match o with
  | [] => [(k, v)]
  | (k', v') :: o' =>
      if String.eqb k' k then (k', v) :: o' else (k', v') :: set o' k v
  end.

Definition isDigit (c : ascii) : bool :=
  let n := N_of_ascii c in ((48 <=? n) && (n <=? 57))%N.

Fixpoint digitsValue (acc : N) (s : string) : option N :=
  match s with
  | EmptyString => Some acc
  | String c s' =>
      if isDigit c
      then digitsValue (10 * acc + (N_of_ascii c - 48))%N s'
      else None
  end.

(** An array index: the canonical decimal form of an integer below
    [2^32 - 1]. *)
Definition arrayIndex (k : string) : option N :=
  match k with
  | EmptyString => None
  | String c rest =>
      if Ascii.eqb c "0" && negb (String.eqb rest EmptyString) then None
      else match digitsValue 0 k with
           | Some n => if (n <? 4294967295)%N then Some n else None
           | None => None
           end
  end.

Definition isIndexKey (kv : string * list ModelResult) : bool :=
  match arrayIndex (fst kv) with
  | Some _ => true
  | None => false
  end.

Definition indexLe (a b : string * list ModelResult) : bool :=
  match arrayIndex (fst a), arrayIndex (fst b) with
  | Some i, Some j => (i <=? j)%N
  | _, _ => true
  end.

(** [Object.entries(o)]: array-index keys first, in ascending numeric order,
    then the other string keys in creation order. *)
Definition entries (o : t) : list (string * list ModelResult) :=
  Js.sort indexLe (filter isIndexKey o)
  ++ filter (fun kv => negb (isIndexKey kv)) o.

End JsObject.

Definition GroupedModels := JsObject.t.

(** One turn of the [forEach] of [groupModelsByBaseName]; [None] is the
    [TypeError] of calling [push] on a value that has none. *)
Definition groupStep (grouped : GroupedModels) (model : ModelResult)
  : option GroupedModels :=
  let baseName := getBaseModelName (model_id model) in
  let grouped :=
    if negb (JsObject.truthy (JsObject.get grouped baseName))
    then JsObject.set grouped baseName []
    else grouped in
  match JsObject.get grouped baseName with
  | JsObject.Arr items => Some (JsObject.set grouped baseName (items ++ [model]))
  | _ => None
  end.

Fixpoint groupLoop (models : list ModelResult) (grouped : GroupedModels)
  : option GroupedModels :=
  match models with
  | [] => Some grouped
  | model :: rest =>
      match groupStep grouped model with
      | Some grouped' => groupLoop rest grouped'
      | None => None
      end
  end.

Definition groupModelsByBaseName (models : list ModelResult)
  : option GroupedModels :=
  groupLoop models [].

(** The groups in the order the page renders them. *)
Definition renderedGroups (models : list ModelResult)
  : option (list (string * list ModelResult)) :=
  option_map JsObject.entries (groupModelsByBaseName models).

(** What one turn of the loop does to the object when the base name is not
    an inherited property name. *)
Definition addTo (o : JsObject.t) (k : string) (m : ModelResult) : JsObject.t :=
  match JsObject.getOwn o k with
  | Some items => JsObject.set o k (items ++ [m])
  | None => o ++ [(k, [m])]
  end.

(** The object [getGroupStats] returns. *)
Module GroupStats.
Record t := mk {
  minDownloads : option Z;
  maxDownloads : option Z;
  bestRelevance : Q;
  bestTags : list string
}.
End GroupStats.

Definition byDistance (a b : ModelResult) : bool :=
  Qle_bool (distance a) (distance b).

(** [getGroupStats]; on an empty array [sortedByRelevance[0]] is
    [undefined] and reading its [distance] throws. *)
Definition getGroupStats (models : list ModelResult) : option GroupStats.t :=
  let sortedByRelevance := Js.sort byDistance models in
  match sortedByRelevance with
  | [] => None
  | mostRelevantModel :: _ =>
      Some (GroupStats.mk
              (Js.mathMin (map downloads models))
              (Js.mathMax (map downloads models))
              (distance mostRelevantModel)
              (match tags mostRelevantModel with
               | Some ts => ts
               | None => []
               end))
  end.

(** ** Component state *)

(** The [useState] cells of [Home]. *)
Record State := mkState {
  query : string;
  results : list ModelResult;
  filteredResults : list ModelResult;
  groupedResults : GroupedModels;
  loading : bool;
  error : option string;
  selectedModel : option ModelResult;
  availableTags : list string;
  selectedTags : list string;
  downloadRange : Z * Z;
  maxDownloads : Z;
  sortOption : string;
  isFiltersOpen : bool;
  resultsLimit : Z
}.

Definition initialState : State :=
  mkState "" [] [] [] false None None [] [] (0, 1000000) 1000000
          "relevance" false 40.

Definition setQuery (v : string) (s : State) : State :=
  mkState v (results s) (filteredResults s) (groupedResults s) (loading s)
          (error s) (selectedModel s) (availableTags s) (selectedTags s)
          (downloadRange s) (maxDownloads s) (sortOption s) (isFiltersOpen s)
          (resultsLimit s).

Definition setResults (v : list ModelResult) (s : State) : State :=
  mkState (query s) v (filteredResults s) (groupedResults s) (loading s)
          (error s) (selectedModel s) (availableTags s) (selectedTags s)
          (downloadRange s) (maxDownloads s) (sortOption s) (isFiltersOpen s)
          (resultsLimit s).

Definition setFilteredResults (v : list ModelResult) (s : State) : State :=
  mkState (query s) (results s) v (groupedResults s) (loading s)
          (error s) (selectedModel s) (availableTags s) (selectedTags s)
          (downloadRange s) (maxDownloads s) (sortOption s) (isFiltersOpen s)
          (resultsLimit s).

Definition setGroupedResults (v : GroupedModels) (s : State) : State :=
  mkState (query s) (results s) (filteredResults s) v (loading s)
          (error s) (selectedModel s) (availableTags s) (selectedTags s)
          (downloadRange s) (maxDownloads s) (sortOption s) (isFiltersOpen s)
          (resultsLimit s).

Definition setLoading (v : bool) (s : State) : State :=
  mkState (query s) (results s) (filteredResults s) (groupedResults s) v
          (error s) (selectedModel s) (availableTags s) (selectedTags s)
          (downloadRange s) (maxDownloads s) (sortOption s) (isFiltersOpen s)
          (resultsLimit s).

Definition setError (v : option string) (s : State) : State :=
  mkState (query s) (results s) (filteredResults s) (groupedResults s)
          (loading s) v (selectedModel s) (availableTags s) (selectedTags s)
          (downloadRange s) (maxDownloads s) (sortOption s) (isFiltersOpen s)
          (resultsLimit s).

Definition setSelectedModel (v : option ModelResult) (s : State) : State :=
  mkState (query s) (results s) (filteredResults s) (groupedResults s)
          (loading s) (error s) v (availableTags s) (selectedTags s)
          (downloadRange s) (maxDownloads s) (sortOption s) (isFiltersOpen s)
          (resultsLimit s).

Definition setAvailableTags (v : list string) (s : State) : State :=
  mkState (query s) (results s) (filteredResults s) (groupedResults s)
          (loading s) (error s) (selectedModel s) v (selectedTags s)
          (downloadRange s) (maxDownloads s) (sortOption s) (isFiltersOpen s)
          (resultsLimit s).

Definition setSelectedTags (v : list string) (s : State) : State :=
  mkState (query s) (results s) (filteredResults s) (groupedResults s)
          (loading s) (error s) (selectedModel s) (availableTags s) v
          (downloadRange s) (maxDownloads s) (sortOption s) (isFiltersOpen s)
          (resultsLimit s).

Definition setDownloadRange (v : Z * Z) (s : State) : State :=
  mkState (query s) (results s) (filteredResults s) (groupedResults s)
          (loading s) (error s) (selectedModel s) (availableTags s)
          (selectedTags s) v (maxDownloads s) (sortOption s) (isFiltersOpen s)
          (resultsLimit s).

Definition setMaxDownloads (v : Z) (s : State) : State :=
  mkState (query s) (results s) (filteredResults s) (groupedResults s)
          (loading s) (error s) (selectedModel s) (availableTags s)
          (selectedTags s) (downloadRange s) v (sortOption s) (isFiltersOpen s)
          (resultsLimit s).

Definition setSortOption (v : string) (s : State) : State :=
  mkState (query s) (results s) (filteredResults s) (groupedResults s)
          (loading s) (error s) (selectedModel s) (availableTags s)
          (selectedTags s) (downloadRange s) (maxDownloads s) v
          (isFiltersOpen s) (resultsLimit s).

Definition setIsFiltersOpen (v : bool) (s : State) : State :=
  mkState (query s) (results s) (filteredResults s) (groupedResults s)
          (loading s) (error s) (selectedModel s) (availableTags s)
          (selectedTags s) (downloadRange s) (maxDownloads s) (sortOption s)
          v (resultsLimit s).

Definition setResultsLimit (v : Z) (s : State) : State :=
  mkState (query s) (results s) (filteredResults s) (groupedResults s)
          (loading s) (error s) (selectedModel s) (availableTags s)
          (selectedTags s) (downloadRange s) (maxDownloads s) (sortOption s)
          (isFiltersOpen s) v.

(** ** Facet extractor: the effect keyed on [results] *)

Definition collectTags (set : list string) (ts : list string) : list string :=
  fold_left (fun set tag => if filterTagForDisplay tag then Js.setAdd set tag
                            else set) ts set.

Definition facetStep (acc : list string * Z) (result : ModelResult)
  : list string * Z :=
  let '(set, maxDownload) := acc in
  (match tags result with
   | Some ts => collectTags set ts
   | None => set
   end,
   if maxDownload <? downloads result then downloads result else maxDownload).

Definition facetsEffect (s : State) : State :=
  if (0 <? List.length (results s))%nat then
    let '(set, maxDownload) := fold_left facetStep (results s) ([], 0) in
    setDownloadRange (0, maxDownload)
      (setMaxDownloads maxDownload
         (setAvailableTags (Js.sort String.leb set) s))
  else s.

(** ** Filter/sort/limit pipeline: the effect keyed on [results] and the
    four filter cells *)

Definition matchesTags (selected : list string) (model : ModelResult) : bool :=
  match tags model with
  | Some ts => existsb (fun tag => Js.includes ts tag) selected
  | None => false
  end.

Definition inDownloadRange (range : Z * Z) (model : ModelResult) : bool :=
  (fst range <=? downloads model) && (downloads model <=? snd range).

Definition byDownloadsHigh (a b : ModelResult) : bool :=
  downloads b <=? downloads a.

Definition byDownloadsLow (a b : ModelResult) : bool :=
  downloads a <=? downloads b.

(** The value of the local [filtered] after each statement of the effect. *)
Definition afterTagFilter (rs : list ModelResult) (selected : list string)
  : list ModelResult :=
  if (0 <? List.length selected)%nat then filter (matchesTags selected) rs
  else rs.

Definition afterRangeFilter (rs : list ModelResult) (selected : list string)
  (range : Z * Z) : list ModelResult :=
  filter (inDownloadRange range) (afterTagFilter rs selected).

Definition afterSort (rs : list ModelResult) (selected : list string)
  (range : Z * Z) (sortBy : string) : list ModelResult :=
  let filtered := afterRangeFilter rs selected range in
  if String.eqb sortBy "downloads-high" then Js.sort byDownloadsHigh filtered
  else if String.eqb sortBy "downloads-low" then Js.sort byDownloadsLow filtered
  else if String.eqb sortBy "relevance" then Js.sort byDistance filtered
  else filtered.

Definition applyFilters (rs : list ModelResult) (selected : list string)
  (range : Z * Z) (sortBy : string) (limit : Z) : list ModelResult :=
  Js.slice0 (afterSort rs selected range sortBy) limit.

(** The effect in the revision of the page that groups its results: [None]
    when [groupModelsByBaseName] throws. *)
Definition filtersEffect (s : State) : option State :=
  let filtered := applyFilters (results s) (selectedTags s) (downloadRange s)
                    (sortOption s) (resultsLimit s) in
  match groupModelsByBaseName filtered with
  | Some grouped => Some (setGroupedResults grouped
                            (setFilteredResults filtered s))
  | None => None
  end.

(** The same effect in the revision [src/app/page.tsx], which has no
    grouping. *)
Module Page.
Definition filtersEffect (s : State) : State :=
  setFilteredResults
    (applyFilters (results s) (selectedTags s) (downloadRange s)
       (sortOption s) (resultsLimit s)) s.
End Page.

(** ** Event handlers *)

(** What a [catch] clause can receive: an [Error] with its message, or some
    other thrown value. *)
Inductive Thrown :=
| ErrorObject (message : string)
| NonError.

(** What the handler reads of a [Response]; [json] is the outcome of
    [response.json()]: a rejection, or a body with or without [results]. *)
Record Response := mkResponse {
  status : Z;
  statusText : string;
  json : Thrown + option (list ModelResult)
}.

Definition ok (r : Response) : bool :=
  (200 <=? status r) && (status r <=? 299).

(** The [try] block: the thrown value, or the array given to [setResults].
    [backendUrl] is the configured URL, [net] the outcome of [fetch]. *)
Definition tryBlock (backendUrl : option string) (net : Thrown + Response)
  : Thrown + list ModelResult :=
  match backendUrl with
  | None | Some EmptyString =>
      inl (ErrorObject
             "Backend URL is not configured in environment variables.")
  | Some _ =>
      match net with
      | inl err => inl err
      | inr response =>
          if negb (ok response)
          then inl (ErrorObject ("Server responded with "
                                 ++ Js.numberToString (status response)
                                 ++ ": " ++ statusText response))
          else match json response with
               | inl err => inl err
               | inr (Some rs) => inr rs
               | inr None => inr []
               end
      end
  end.

Definition errorMessage (err : Thrown) : string :=
  match err with
  | ErrorObject message => message
  | NonError => "An unknown error occurred"
  end.

(** [handleSearch] up to the [await]. *)
Definition handleSearchStart (s : State) : State :=
  setSelectedTags [] (setError None (setLoading true s)).

(** [handleSearch] from the [await] on: [try], [catch], [finally]. *)
Definition handleSearchSettle (backendUrl : option string)
  (net : Thrown + Response) (s : State) : State :=
  setLoading false
    (match tryBlock backendUrl net with
     | inr rs => setResults rs s
     | inl err => setError (Some (errorMessage err)) s
     end).

Definition handleSearch (backendUrl : option string)
  (net : Thrown + Response) (s : State) : State :=
  if Js.blank (query s) then s
  else handleSearchSettle backendUrl net (handleSearchStart s).

Definition toggleTagFilter (tag : string) (s : State) : State :=
  setSelectedTags
    (let prev := selectedTags s in
     if Js.includes prev tag
     then filter (fun t => negb (String.eqb t tag)) prev
     else prev ++ [tag]) s.

Definition clearFilters (s : State) : State :=
  setResultsLimit 40
    (setSortOption "relevance"
       (setDownloadRange (0, maxDownloads s)
          (setSelectedTags [] s))).

(** A submission followed by the effect its outcome triggers on the filter
    cells: [facetsEffect] runs when [setResults] was called. *)
Definition submitSearch (backendUrl : option string)
  (net : Thrown + Response) (s : State) : State :=
  let s' := handleSearch backendUrl net s in
  if Js.blank (query s) then s'
  else match tryBlock backendUrl net with
       | inr _ => facetsEffect s'
       | inl _ => s'
       end.

(** The other events of the page. *)
Inductive Event :=
| TypeQuery (text : string)
| ToggleTag (tag : string)
| ClearFilters
| ChooseSort (sortBy : string)
| DragRange (range : Z * Z)
| ChooseLimit (limit : Z)
| OpenFilters (open : bool)
| SelectModel (model : option ModelResult).

Definition handle (e : Event) (s : State) : State :=
  match e with
  | TypeQuery text => setQuery text s
  | ToggleTag tag => toggleTagFilter tag s
  | ClearFilters => clearFilters s
  | ChooseSort sortBy => setSortOption sortBy s
  | DragRange range => setDownloadRange range s
  | ChooseLimit limit => setResultsLimit limit s
  | OpenFilters open => setIsFiltersOpen open s
  | SelectModel model => setSelectedModel model s
  end.

Definition isFilterEvent (e : Event) : bool :=
  match e with
  | ToggleTag _ | ClearFilters | ChooseSort _ | DragRange _ | ChooseLimit _ =>
      true
  | _ => false
  end.

(** The four cells the specification calls the filter state. *)
Definition filterState (s : State) : list string * (Z * Z) * string * Z :=
  (selectedTags s, downloadRange s, sortOption s, resultsLimit s).

(** ** The pipeline as the specification words it

    These definitions follow the specification's sentences; the theorems
    below compare them with the code's [applyFilters]. *)
Module Spec.

(** An absent tag collection counts as empty. *)
Definition tagsOf (m : ModelResult) : list string :=
  match tags m with
  | Some ts => ts
  | None => []
  end.

(** The two tag lists have a common element. *)
Definition intersects (a b : list string) : bool :=
  existsb (fun x => existsb (String.eqb x) b) a.

(** Step 1: with a non-empty selection, keep the items whose tags intersect
    it. *)
Definition tagFilter (selected : list string) (rs : list ModelResult)
  : list ModelResult :=
  match selected with
  | [] => rs
  | _ => filter (fun m => intersects (tagsOf m) selected) rs
  end.

(** Step 2: keep the items with [low <= downloads <= high]. *)
Definition rangeFilter (low high : Z) (rs : list ModelResult)
  : list ModelResult :=
  filter (fun m => (low <=? downloads m) && (downloads m <=? high)) rs.

Section Stable.
Context {A : Type} (le : A -> A -> bool).

(** Two elements the order ranks equal. *)
Definition tied (k x : A) : bool := le k x && le x k.

(** [out] is [inp] put in order, elements of equal rank keeping their
    relative order. *)
Definition StableSort (inp out : list A) : Prop :=
  Permutation inp out
  /\ StronglySorted (fun a b => le a b = true) out
  /\ forall k, filter (tied k) out = filter (tied k) inp.
End Stable.

(** Step 3: the order each sort mode asks for; any other mode asks for no
    reordering. *)
Definition SortedAs (mode : string) (inp out : list ModelResult) : Prop :=
  if String.eqb mode "relevance"
  then StableSort (fun a b => Qle_bool (distance a) (distance b)) inp out
  else if String.eqb mode "downloads-high"
  then StableSort (fun a b => downloads b <=? downloads a) inp out
  else if String.eqb mode "downloads-low"
  then StableSort (fun a b => downloads a <=? downloads b) inp out
  else out = inp.

(** Step 4: the first [n] items. *)
Definition limit (n : nat) (rs : list ModelResult) : list ModelResult :=
  firstn n rs.

(** A tag some raw item carries and the display filter accepts. *)
Definition displayableTagOf (rs : list ModelResult) (t : string) : Prop :=
  exists r ts, In r rs /\ tags r = Some ts /\ In t ts
               /\ filterTagForDisplay t = true.

(** Grouping: the base name of an item, the distinct base names in order of
    first occurrence, the items of one base name in input order. *)
Definition baseNameOf (m : ModelResult) : string :=
  getBaseModelName (model_id m).

Fixpoint distinct (ks : list string) : list string :=
  match ks with
  | [] => []
  | k :: ks' => k :: filter (fun k' => negb (String.eqb k' k)) (distinct ks')
  end.

Definition groupOf (k : string) (models : list ModelResult)
  : list ModelResult :=
  filter (fun m => String.eqb (baseNameOf m) k) models.

Definition groups (models : list ModelResult)
  : list (string * list ModelResult) :=
  map (fun k => (k, groupOf k models)) (distinct (map baseNameOf models)).

End Spec.

(** ** What the markup computes from the state *)

(** The condition under which the page offers the "Clear filters" button:
    the results header is rendered ([results.length > 0]) and, inside it,
    the button's own condition holds. *)
Definition clearFiltersVisible (s : State) : bool :=
  (0 <? List.length (results s))%nat
  && ((0 <? List.length (selectedTags s))%nat
      || (0 <? fst (downloadRange s))
      || (snd (downloadRange s) <? maxDownloads s)
      || negb (String.eqb (sortOption s) "relevance")).

(** The tag badges of a group card: the first five displayable tags of the
    most relevant item, and the count of the "+n" badge when there are
    more. *)
Definition groupCardTags (stats : GroupStats.t) : list string * option Z :=
  let displayable := filter filterTagForDisplay (GroupStats.bestTags stats) in
  (Js.slice0 displayable 5,
   if (5 <? List.length displayable)%nat
   then Some (Z.of_nat (List.length displayable) - 5)
   else None).

(** ** Runs of the page

    What can happen to the state: an event of the page, the synchronous
    part of a submission, and the arrival of its outcome, after which the
    facet effect runs when [setResults] was called.  The filter effect is
    left out: it writes [filteredResults] and [groupedResults] only. *)
Inductive Step :=
| Ui (e : Event)
| Submit
| Settle (backendUrl : option string) (net : Thrown + Response).

Definition step (st : Step) (s : State) : State :=
  match st with
  | Ui e => handle e s
  | Submit => if Js.blank (query s) then s else handleSearchStart s
  | Settle backendUrl net =>
      let s' := handleSearchSettle backendUrl net s in
      match tryBlock backendUrl net with
      | inr _ => facetsEffect s'
      | inl _ => s'
      end
  end.

Definition run (steps : list Step) (s : State) : State :=
  fold_left (fun s st => step st s) steps s.

(** What every run of the page keeps true of the state. *)
Definition wellFormed (s : State) : Prop :=
  NoDup (selectedTags s)
  /\ StronglySorted (fun a b => String.ltb a b = true) (availableTags s)
  /\ (forall t, In t (availableTags s) -> filterTagForDisplay t = true)
  /\ 0 <= maxDownloads s.

(** * Properties *)

(** ** The stable sort *)

Section SortFacts.
Context {A : Type} (le : A -> A -> bool).
Hypothesis le_total : forall a b, le a b = true \/ le b a = true.
Hypothesis le_trans : forall a b c, le a b = true -> le b c = true -> le a c = true.

Lemma insert_perm x l : Permutation (x :: l) (Js.insert le x l).
Proof.
  induction l as [|y l IH]; simpl; [reflexivity|].
  destruct (le x y); [reflexivity|].
  rewrite perm_swap. now constructor.
Qed.

Lemma sort_perm l : Permutation l (Js.sort le l).
Proof.
  induction l as [|x l IH]; simpl; [constructor|].
  rewrite <- insert_perm. now constructor.
Qed.

Lemma insert_sorted x l :
  StronglySorted (fun a b => le a b = true) l ->
  StronglySorted (fun a b => le a b = true) (Js.insert le x l).
Proof.
  induction 1 as [|y l Hs IH Hy]; simpl.
  - repeat constructor.
  - destruct (le x y) eqn:E.
    + constructor; [now constructor|].
      constructor; [exact E|].
      rewrite Forall_forall in *. intros z Hz. eauto.
    + constructor; [exact IH|].
      rewrite Forall_forall in *. intros z Hz.
      apply Permutation_in with (l' := x :: l) in Hz;
        [|symmetry; apply insert_perm].
      destruct Hz as [<-|Hz]; [|auto].
      destruct (le_total x y) as [H|H]; congruence.
Qed.

Lemma sort_sorted l : StronglySorted (fun a b => le a b = true) (Js.sort le l).
Proof.
  induction l; simpl; [constructor|now apply insert_sorted].
Qed.

Lemma insert_stable k x l :
  filter (Spec.tied le k) (Js.insert le x l) = filter (Spec.tied le k) (x :: l).
Proof.
  induction l as [|y l IH]; [reflexivity|].
  cbn [Js.insert]. destruct (le x y) eqn:E; [reflexivity|].
  cbn [filter] in *. rewrite IH.
  destruct (Spec.tied le k x) eqn:Kx, (Spec.tied le k y) eqn:Ky; try reflexivity.
  unfold Spec.tied in Kx, Ky.
  apply andb_true_iff in Kx, Ky. destruct Kx as [_ Hxk], Ky as [Hky _].
  rewrite (le_trans _ _ _ Hxk Hky) in E. discriminate.
Qed.

Lemma sort_stable k l : filter (Spec.tied le k) (Js.sort le l) = filter (Spec.tied le k) l.
Proof.
  induction l as [|x l IH]; [reflexivity|].
  cbn [Js.sort]. rewrite insert_stable. cbn [filter]. now rewrite IH.
Qed.

Lemma sort_StableSort l : Spec.StableSort le l (Js.sort le l).
Proof.
  split; [apply sort_perm|]. split; [apply sort_sorted|].
  intro k. apply sort_stable.
Qed.

(** The first element of the sorted array is the earliest least element. *)
Lemma sort_head x l :
  exists pre m post,
    x :: l = pre ++ m :: post
    /\ hd_error (Js.sort le (x :: l)) = Some m
    /\ (forall y, In y pre -> le y m = false)
    /\ (forall y, In y post -> le m y = true).
Proof.
  revert x. induction l as [|y l IH]; intro x.
  - exists [], x, []. cbn. intuition.
  - destruct (IH y) as (pre & m & post & Heq & Hhd & Hpre & Hpost).
    cbn [Js.sort] in *. rewrite Heq.
    destruct (Js.insert le y (Js.sort le l)) as [|h t] eqn:Hs;
      [discriminate|].
    cbn in Hhd. injection Hhd as ->.
    cbn [Js.insert]. destruct (le x m) eqn:E.
    + exists [], x, (pre ++ m :: post). cbn [app hd_error].
      repeat split; [intros ? []|].
      intros z Hz. apply in_app_or in Hz.
      destruct Hz as [Hz|[<-|Hz]]; [|exact E|eauto].
      specialize (Hpre z Hz).
      destruct (le_total z m) as [H|H]; [congruence|eauto].
    + exists (x :: pre), m, post. cbn [app hd_error].
      repeat split; [|exact Hpost].
      intros z [Hz|Hz]; [subst z; exact E|auto].
Qed.

End SortFacts.

(** ** Comparators of the page *)

Lemma byDistance_total a b : byDistance a b = true \/ byDistance b a = true.
Proof.
  unfold byDistance. rewrite !Qle_bool_iff.
  destruct (Qlt_le_dec (distance a) (distance b)) as [H|H]; [left|right]; auto.
  now apply Qlt_le_weak.
Qed.

Lemma byDistance_trans a b c :
  byDistance a b = true -> byDistance b c = true -> byDistance a c = true.
Proof. unfold byDistance. rewrite !Qle_bool_iff. apply Qle_trans. Qed.

Lemma byDownloadsHigh_total a b :
  byDownloadsHigh a b = true \/ byDownloadsHigh b a = true.
Proof. unfold byDownloadsHigh. lia. Qed.

Lemma byDownloadsHigh_trans a b c :
  byDownloadsHigh a b = true -> byDownloadsHigh b c = true ->
  byDownloadsHigh a c = true.
Proof. unfold byDownloadsHigh. lia. Qed.

Lemma byDownloadsLow_total a b :
  byDownloadsLow a b = true \/ byDownloadsLow b a = true.
Proof. unfold byDownloadsLow. lia. Qed.

Lemma byDownloadsLow_trans a b c :
  byDownloadsLow a b = true -> byDownloadsLow b c = true ->
  byDownloadsLow a c = true.
Proof. unfold byDownloadsLow. lia. Qed.

(** ** The pipeline, stage by stage *)

Lemma includes_In arr x : Js.includes arr x = true <-> In x arr.
Proof.
  unfold Js.includes. rewrite existsb_exists. split.
  - intros (y & Hy & E). apply String.eqb_eq in E. now subst.
  - intro H. exists x. split; [exact H|apply String.eqb_refl].
Qed.

Lemma matchesTags_intersects selected m :
  matchesTags selected m = Spec.intersects (Spec.tagsOf m) selected.
Proof.
  unfold matchesTags, Spec.tagsOf, Spec.intersects.
  destruct (tags m) as [ts|].
  - apply eq_true_iff_eq. rewrite !existsb_exists. split.
    + intros (t & Ht & Hin). apply includes_In in Hin.
      exists t. split; [exact Hin|]. apply existsb_exists.
      exists t. split; [exact Ht|apply String.eqb_refl].
    + intros (t & Ht & Hin). apply existsb_exists in Hin.
      destruct Hin as (u & Hu & E). apply String.eqb_eq in E. subst u.
      exists t. split; [exact Hu|]. now apply includes_In.
  - cbn. induction selected; cbn; auto.
Qed.

Lemma afterTagFilter_spec rs selected :
  afterTagFilter rs selected = Spec.tagFilter selected rs.
Proof.
  unfold afterTagFilter, Spec.tagFilter.
  destruct selected as [|t sel]; [reflexivity|]. cbn [List.length Nat.ltb Nat.leb].
  apply filter_ext. intro m. apply matchesTags_intersects.
Qed.

Lemma afterRangeFilter_spec rs selected low high :
  afterRangeFilter rs selected (low, high)
  = Spec.rangeFilter low high (Spec.tagFilter selected rs).
Proof.
  unfold afterRangeFilter, Spec.rangeFilter. now rewrite afterTagFilter_spec.
Qed.

Lemma afterSort_SortedAs rs selected range mode :
  Spec.SortedAs mode (afterRangeFilter rs selected range)
    (afterSort rs selected range mode).
Proof.
  unfold Spec.SortedAs, afterSort.
  destruct (String.eqb mode "downloads-high") eqn:Eh.
  - apply String.eqb_eq in Eh. subst mode. cbn.
    apply (sort_StableSort byDownloadsHigh);
      [apply byDownloadsHigh_total|apply byDownloadsHigh_trans].
  - destruct (String.eqb mode "downloads-low") eqn:El.
    + apply String.eqb_eq in El. subst mode. cbn.
      apply (sort_StableSort byDownloadsLow);
        [apply byDownloadsLow_total|apply byDownloadsLow_trans].
    + destruct (String.eqb mode "relevance") eqn:Er; [|reflexivity].
      apply (sort_StableSort byDistance);
        [apply byDistance_total|apply byDistance_trans].
Qed.

Lemma slice0_firstn {A : Type} (l : list A) n :
  0 <= n -> Js.slice0 l n = firstn (Z.to_nat n) l.
Proof.
  intro H. unfold Js.slice0. destruct (n <? 0) eqn:E; [lia|reflexivity].
Qed.

Lemma SortedAs_length mode inp out :
  Spec.SortedAs mode inp out -> List.length out = List.length inp.
Proof.
  unfold Spec.SortedAs.
  destruct (String.eqb mode "relevance");
    [|destruct (String.eqb mode "downloads-high");
      [|destruct (String.eqb mode "downloads-low")]];
    try (intros (P & _); symmetry; now apply Permutation_length).
  now intros ->.
Qed.

(** C1: for every raw list and every filter state with a non-negative
    limit, the displayed list is the raw list put through tag filter,
    inclusive download-range filter, sort and truncation to the first
    [resultsLimit] items, in this order; with a limit of 2 and 5 qualifying
    items the output is the first 2 items of the sorted sequence. *)
Theorem applyFilters_stages rs selected low high mode limit :
  0 <= limit ->
  let qualifying := Spec.rangeFilter low high (Spec.tagFilter selected rs) in
  exists ordered,
    Spec.SortedAs mode qualifying ordered
    /\ applyFilters rs selected (low, high) mode limit
       = Spec.limit (Z.to_nat limit) ordered
    /\ filteredResults
         (Page.filtersEffect
            (setResultsLimit limit
               (setSortOption mode
                  (setDownloadRange (low, high)
                     (setSelectedTags selected
                        (setResults rs initialState))))))
       = Spec.limit (Z.to_nat limit) ordered
    /\ (limit = 2 -> List.length qualifying = 5%nat ->
        List.length (applyFilters rs selected (low, high) mode limit) = 2%nat
        /\ applyFilters rs selected (low, high) mode limit
           = firstn 2 ordered).
Proof.
  intros Hl qualifying.
  exists (afterSort rs selected (low, high) mode).
  pose proof (afterSort_SortedAs rs selected (low, high) mode) as Hs.
  rewrite afterRangeFilter_spec in Hs. fold qualifying in Hs.
  assert (E : applyFilters rs selected (low, high) mode limit
              = Spec.limit (Z.to_nat limit)
                  (afterSort rs selected (low, high) mode))
    by (unfold applyFilters; now rewrite slice0_firstn).
  repeat split; try assumption.
  - rewrite E. subst limit. unfold Spec.limit.
    rewrite length_firstn, (SortedAs_length _ _ _ Hs). lia.
  - rewrite E. now subst limit.
Qed.

Lemma applyFilters_stages_witness :
  let five := map (fun d => mkModel "org/m" (Some ["pytorch"]) d (1 # 2) None)
                [50; 10; 40; 20; 30] in
  List.length (applyFilters five ["pytorch"] (0, 100) "downloads-low" 2) = 2%nat.
Proof.
  intro five.
  destruct (applyFilters_stages five ["pytorch"] 0 100 "downloads-low" 2)
    as (ordered & _ & _ & _ & H); [lia|].
  apply H; reflexivity.
Defined.

(** ** The order of strings *)

Lemma string_leb_cases a b :
  String.leb a b = true <-> a = b \/ String_as_OT.lt a b.
Proof.
  unfold String.leb.
  pose proof (String_as_OT.cmp_eq a b) as He.
  pose proof (String_as_OT.cmp_lt a b) as Hl.
  pose proof (String_as_OT.cmp_lt b a) as Hg.
  pose proof (String_as_OT.cmp_antisym b a) as Ha.
  unfold String_as_OT.cmp in *.
  destruct (String.compare a b) eqn:E.
  - intuition.
  - intuition.
  - split; [discriminate|]. intros [H|H].
    + apply He in H. discriminate.
    + apply Hl in H. discriminate.
Qed.

Lemma string_ltb_lt a b : String.ltb a b = true <-> String_as_OT.lt a b.
Proof.
  unfold String.ltb. rewrite <- String_as_OT.cmp_lt. unfold String_as_OT.cmp.
  destruct (String.compare a b); intuition discriminate.
Qed.

Lemma string_leb_trans a b c :
  String.leb a b = true -> String.leb b c = true -> String.leb a c = true.
Proof.
  rewrite !string_leb_cases. intros [->|H1] [->|H2]; auto.
  right. eapply String_as_OT.lt_trans; eassumption.
Qed.

Lemma strictly_sorted (l : list string) :
  NoDup l -> StronglySorted (fun a b => String.leb a b = true) l ->
  StronglySorted (fun a b => String.ltb a b = true) l.
Proof.
  intros Hn Hs. induction Hs as [|a l Hs IH Ha]; [constructor|].
  inversion Hn as [|? ? Hnotin Hn']; subst.
  constructor; [auto|].
  rewrite Forall_forall in *. intros b Hb.
  apply string_ltb_lt. destruct (proj1 (string_leb_cases a b) (Ha b Hb)) as [->|H];
    [contradiction|exact H].
Qed.

(** ** Facet extractor *)

Lemma setAdd_In set x t : In t (Js.setAdd set x) <-> In t set \/ t = x.
Proof.
  unfold Js.setAdd. destruct (Js.includes set x) eqn:E.
  - apply includes_In in E. split; [auto|]. intros [H| ->]; auto.
  - rewrite in_app_iff. cbn. intuition.
Qed.

Lemma setAdd_NoDup set x : NoDup set -> NoDup (Js.setAdd set x).
Proof.
  intro H. unfold Js.setAdd. destruct (Js.includes set x) eqn:E; [exact H|].
  apply NoDup_app; [exact H|repeat constructor; intros []|].
  intros y Hy [<-|[]].
  apply includes_In in Hy. congruence.
Qed.

Lemma collectTags_In ts : forall set t,
  In t (collectTags set ts)
  <-> In t set \/ (In t ts /\ filterTagForDisplay t = true).
Proof.
  unfold collectTags. induction ts as [|tag ts IH]; intros set t; cbn.
  - intuition.
  - rewrite IH. destruct (filterTagForDisplay tag) eqn:E.
    + rewrite setAdd_In. intuition (subst; auto).
    + intuition (subst; congruence).
Qed.

Lemma collectTags_NoDup ts : forall set,
  NoDup set -> NoDup (collectTags set ts).
Proof.
  unfold collectTags. induction ts as [|tag ts IH]; intros set H; cbn; [exact H|].
  apply IH. destruct (filterTagForDisplay tag); [now apply setAdd_NoDup|exact H].
Qed.

Lemma facetFold_tags rs : forall set mx t,
  In t (fst (fold_left facetStep rs (set, mx)))
  <-> In t set \/ Spec.displayableTagOf rs t.
Proof.
  induction rs as [|r rs IH]; intros set mx t; cbn [fold_left].
  - cbn. split; [auto|]. intros [H|(r & ts & [] & _)]. exact H.
  - unfold facetStep at 2. rewrite IH. unfold Spec.displayableTagOf.
    destruct (tags r) as [ts|] eqn:Et.
    + rewrite collectTags_In. split.
      * intros [[H|[H1 H2]]|(r' & ts' & H & H')]; auto.
        -- right. exists r, ts. cbn. auto.
        -- right. exists r', ts'. cbn. auto.
      * intros [H|(r' & ts' & [<-|H] & Ht' & H')]; auto.
        -- rewrite Et in Ht'. injection Ht' as <-. left. right. tauto.
        -- right. exists r', ts'. auto.
    + split.
      * intros [H|(r' & ts' & H & H')]; auto.
        right. exists r', ts'. cbn. auto.
      * intros [H|(r' & ts' & [<-|H] & Ht' & H')]; auto; [congruence|].
        right. exists r', ts'. auto.
Qed.

Lemma facetFold_NoDup rs : forall set mx,
  NoDup set -> NoDup (fst (fold_left facetStep rs (set, mx))).
Proof.
  induction rs as [|r rs IH]; intros set mx H; cbn [fold_left]; [exact H|].
  unfold facetStep at 2. apply IH.
  destruct (tags r); [now apply collectTags_NoDup|exact H].
Qed.

Lemma facetFold_max rs : forall set mx,
  let M := snd (fold_left facetStep rs (set, mx)) in
  mx <= M
  /\ (forall r, In r rs -> downloads r <= M)
  /\ (M = mx \/ exists r, In r rs /\ downloads r = M).
Proof.
  induction rs as [|r rs IH]; intros set mx; cbn [fold_left].
  - cbn. repeat split; [lia|intros ? []|auto].
  - set (mx' := if mx <? downloads r then downloads r else mx).
    set (set' := match tags r with
                 | Some ts => collectTags set ts
                 | None => set
                 end).
    assert (Hmx : mx <= mx' /\ downloads r <= mx'
                  /\ (mx' = mx \/ mx' = downloads r))
      by (subst mx'; destruct (mx <? downloads r) eqn:E; lia).
    change (facetStep (set, mx) r) with (set', mx').
    clearbody mx' set'.
    specialize (IH set' mx'). cbv zeta in *.
    destruct IH as (H1 & H2 & H3).
    repeat split; [lia| |].
    + intros r' [<-|H]; [lia|auto].
    + destruct H3 as [H3|(r' & Hr' & Hd)].
      * destruct Hmx as (_ & _ & [Hm|Hm]); [left; lia|].
        right. exists r. cbn. split; [auto|lia].
      * right. exists r'. cbn. auto.
Qed.

Lemma facetFold_ignores_selection rs sel s :
  results s = rs ->
  availableTags (facetsEffect (setSelectedTags sel s))
  = availableTags (facetsEffect s).
Proof.
  intros <-. unfold facetsEffect. cbn [results setSelectedTags].
  destruct (0 <? List.length (results s))%nat; [|reflexivity].
  destruct (fold_left facetStep (results s) ([], 0)). reflexivity.
Qed.

(** C2, as amended: for every non-empty raw set the facets are computed
    from the raw set alone: [availableTags] is the strictly ascending list
    of the displayable tags of the raw items and [maxDownloads] is the
    maximum of their downloads; the selection of tags plays no part, and
    toggling a tag changes neither the raw set nor [availableTags].  For an
    empty raw set the effect leaves every cell as it was. *)
Theorem facetsEffect_facets s :
  (results s = [] -> facetsEffect s = s)
  /\ (results s <> [] ->
      let s' := facetsEffect s in
      StronglySorted (fun a b => String.ltb a b = true) (availableTags s')
      /\ (forall t, In t (availableTags s')
                    <-> Spec.displayableTagOf (results s) t)
      /\ (forall r, In r (results s) -> downloads r <= maxDownloads s')
      /\ ((forall r, In r (results s) -> 0 <= downloads r) ->
          exists r, In r (results s) /\ downloads r = maxDownloads s')
      /\ (forall selected,
            availableTags (facetsEffect (setSelectedTags selected s))
            = availableTags s')
      /\ (forall tag,
            results (toggleTagFilter tag s') = results s'
            /\ availableTags (toggleTagFilter tag s') = availableTags s')).
Proof.
  split.
  - intro E. unfold facetsEffect. now rewrite E.
  - intros Hne s'.
    assert (E : availableTags s'
                = Js.sort String.leb
                    (fst (fold_left facetStep (results s) ([], 0)))
                /\ maxDownloads s'
                   = snd (fold_left facetStep (results s) ([], 0))).
    { subst s'. unfold facetsEffect.
      destruct (results s) as [|r0 rs0]; [congruence|].
      cbn [List.length Nat.ltb Nat.leb].
      destruct (fold_left facetStep (r0 :: rs0) ([], 0)). split; reflexivity. }
    destruct E as [Ea Em].
    pose proof (facetFold_tags (results s) [] 0) as Htags.
    pose proof (facetFold_NoDup (results s) [] 0 (NoDup_nil _)) as Hnd.
    pose proof (facetFold_max (results s) [] 0) as Hmax.
    destruct (fold_left facetStep (results s) ([], 0)) as [set mx] eqn:Ef.
    cbn [fst snd] in *. cbv zeta in Hmax.
    destruct Hmax as (Hge & Hub & Hatt).
    rewrite Ea, Em.
    repeat split.
    + apply strictly_sorted.
      * eapply Permutation_NoDup; [apply sort_perm|exact Hnd].
      * apply sort_sorted; [apply String.leb_total|apply string_leb_trans].
    + intro H. apply Permutation_in with (l' := set) in H;
        [|symmetry; apply sort_perm].
      apply Htags in H. destruct H as [[]|H]. exact H.
    + intro H. apply Permutation_in with (l := set); [apply sort_perm|].
      apply Htags. now right.
    + exact Hub.
    + intro Hpos. destruct Hatt as [->|H]; [|exact H].
      destruct (results s) as [|r0 rs0]; [congruence|].
      exists r0. split; [now left|].
      specialize (Hpos r0 (or_introl eq_refl)).
      specialize (Hub r0 (or_introl eq_refl)). lia.
    + intro selected. rewrite <- Ea. subst s'.
      apply facetFold_ignores_selection with (rs := results s). reflexivity.
    + rewrite <- Ea. reflexivity.
Qed.

Lemma facetsEffect_facets_witness :
  let s := setResults
             [mkModel "org/a-1" (Some ["pytorch"; "nlp"]) 7 (1 # 2) None;
              mkModel "org/b" None 3 (1 # 5) None] initialState in
  In "pytorch" (availableTags (facetsEffect s))
  /\ exists r, In r (results s) /\ downloads r = maxDownloads (facetsEffect s).
Proof.
  intro s.
  destruct (facetsEffect_facets s) as [_ H].
  destruct H as (_ & Htags & _ & Hmax & _); [discriminate|].
  split.
  - apply Htags. exists (mkModel "org/a-1" (Some ["pytorch"; "nlp"]) 7 (1 # 2) None).
    exists ["pytorch"; "nlp"]. cbn. auto.
  - apply Hmax. cbn. intros r [<-|[<-|[]]]; cbn; lia.
Defined.

(** C2 as stated fails: after a search that returned results, a search
    that returns none leaves the raw set empty while [maxDownloads] and
    [availableTags] still hold the facets of the earlier results. *)
Lemma facets_of_empty_results_stale :
  let first := mkResponse 200 "OK"
                 (inr (Some [mkModel "org/a-1" (Some ["pytorch"]) 7 (1 # 2)
                               None])) in
  let second := mkResponse 200 "OK" (inr (Some [])) in
  let s := submitSearch (Some "http://backend") (inr second)
             (submitSearch (Some "http://backend") (inr first)
                (setQuery "bert" initialState)) in
  results s = []
  /\ maxDownloads s = 7
  /\ maxDownloads s <> 0
  /\ availableTags s = ["pytorch"]
  /\ maxDownloads (facetsEffect initialState) = 1000000.
Proof. cbv zeta. repeat split. discriminate. Qed.

(** ** Filter state: submission, clearing, other events *)

(** C3, as amended: submitting a non-blank query resets [selectedTags] to
    the empty list and keeps [sortOption] and [resultsLimit];
    [downloadRange] becomes [0, maxDownloads] when the response carries a
    non-empty result list and is kept otherwise.  [clearFilters] restores
    all four defaults.  An event that is not a filter action leaves the
    filter state as it was. *)
Theorem filter_state_lifecycle backendUrl net s :
  Js.blank (query s) = false ->
  let s' := submitSearch backendUrl net s in
  selectedTags s' = []
  /\ sortOption s' = sortOption s
  /\ resultsLimit s' = resultsLimit s
  /\ (match tryBlock backendUrl net with
      | inr (_ :: _) => downloadRange s' = (0, maxDownloads s')
      | _ => downloadRange s' = downloadRange s
      end)
  /\ filterState (clearFilters s) = ([], (0, maxDownloads s), "relevance", 40)
  /\ (forall e, isFilterEvent e = false ->
                filterState (handle e s) = filterState s).
Proof.
  intros Hq s'. subst s'. unfold submitSearch, handleSearch.
  rewrite Hq. unfold handleSearchSettle, handleSearchStart.
  destruct (tryBlock backendUrl net) as [err|[|r rs]].
  - cbn. repeat split. intros [] He; try discriminate; reflexivity.
  - cbn. repeat split. intros [] He; try discriminate; reflexivity.
  - unfold facetsEffect. cbn [results setLoading setResults List.length Nat.ltb Nat.leb].
    destruct (fold_left facetStep (r :: rs) ([], 0)) as [set mx].
    cbn. repeat split. intros [] He; try discriminate; reflexivity.
Qed.

Lemma filter_state_lifecycle_witness :
  let s := setSortOption "downloads-high" (setQuery "bert" initialState) in
  sortOption (submitSearch (Some "http://backend")
                (inr (mkResponse 200 "OK" (inr None))) s) = "downloads-high".
Proof.
  intro s.
  destruct (filter_state_lifecycle (Some "http://backend")
              (inr (mkResponse 200 "OK" (inr None))) s) as (_ & H & _);
    [reflexivity|exact H].
Defined.

(** C3 as stated fails: a sort mode and a limit chosen before a submission
    are still in place after it. *)
Lemma submission_keeps_sort_and_limit :
  let s := setResultsLimit 10
             (setSortOption "downloads-high" (setQuery "bert" initialState)) in
  let s' := submitSearch (Some "http://backend")
              (inr (mkResponse 200 "OK"
                      (inr (Some [mkModel "org/a-1" (Some ["pytorch"]) 7
                                    (1 # 2) None])))) s in
  sortOption s' = "downloads-high"
  /\ resultsLimit s' = 10
  /\ filterState s' <> ([], (0, maxDownloads s'), "relevance", 40).
Proof. cbv zeta. repeat split. discriminate. Qed.

(** ** Tag selection *)

Lemma SortedAs_perm mode inp out :
  Spec.SortedAs mode inp out -> Permutation inp out.
Proof.
  unfold Spec.SortedAs.
  destruct (String.eqb mode "relevance");
    [|destruct (String.eqb mode "downloads-high");
      [|destruct (String.eqb mode "downloads-low")]];
    try (now intros (P & _)).
  now intros ->.
Qed.

Lemma afterSort_In rs selected range mode m :
  In m (afterSort rs selected range mode)
  <-> In m (afterRangeFilter rs selected range).
Proof.
  pose proof (SortedAs_perm _ _ _ (afterSort_SortedAs rs selected range mode))
    as P.
  split; apply Permutation_in; [symmetry|]; exact P.
Qed.

Lemma firstn_In {A : Type} (n : nat) (l : list A) x :
  In x (firstn n l) -> In x l.
Proof.
  intro H. rewrite <- (firstn_skipn n l). apply in_or_app. now left.
Qed.

Lemma applyFilters_In rs selected range mode limit m :
  In m (applyFilters rs selected range mode limit) ->
  In m (afterRangeFilter rs selected range).
Proof.
  unfold applyFilters, Js.slice0. intro H. apply (afterSort_In _ _ _ mode).
  destruct (limit <? 0); eapply firstn_In; exact H.
Qed.

Lemma matchesTags_widens A B m :
  matchesTags [A] m = true -> matchesTags [A; B] m = true.
Proof.
  unfold matchesTags. destruct (tags m); [|discriminate].
  cbn. intro H. rewrite orb_false_r in H. now rewrite H.
Qed.

(** C4, as amended: before truncation, selecting [A] and [B] keeps every
    item that selecting [A] alone keeps, whatever the download range and
    the sort mode; the same inclusion holds for the pipeline output whenever
    the limit is at least the number of items that pass the filters with
    both tags selected. *)
Theorem tag_selection_widens rs range mode A B :
  incl (afterSort rs [A] range mode) (afterSort rs [A; B] range mode)
  /\ forall limit,
       Z.of_nat (List.length (afterRangeFilter rs [A; B] range)) <= limit ->
       incl (applyFilters rs [A] range mode limit)
            (applyFilters rs [A; B] range mode limit).
Proof.
  assert (Hw : incl (afterRangeFilter rs [A] range)
                    (afterRangeFilter rs [A; B] range)).
  { intros m. unfold afterRangeFilter, afterTagFilter. cbn [List.length Nat.ltb Nat.leb].
    rewrite !filter_In. intros [[H1 H2] H3]. repeat split; auto.
    now apply matchesTags_widens. }
  split.
  - intros m H. apply afterSort_In. apply Hw. now apply afterSort_In in H.
  - intros limit Hl m H. apply applyFilters_In in H. apply Hw in H.
    apply (afterSort_In _ _ _ mode) in H.
    unfold applyFilters. rewrite slice0_firstn by lia.
    rewrite firstn_all2; [exact H|].
    pose proof (Permutation_length
                  (SortedAs_perm _ _ _ (afterSort_SortedAs rs [A; B] range mode))).
    lia.
Qed.

Lemma tag_selection_widens_witness :
  let x := mkModel "org/x" (Some ["vision"]) 5 (1 # 10) None in
  let y := mkModel "org/y" (Some ["audio"]) 5 (1 # 2) None in
  incl (applyFilters [x; y] ["audio"] (0, 100) "relevance" 2)
       (applyFilters [x; y] ["audio"; "vision"] (0, 100) "relevance" 2).
Proof.
  intros x y.
  apply (proj2 (tag_selection_widens [x; y] (0, 100) "relevance"
                  "audio" "vision")).
  cbn. lia.
Defined.

(** C4 as stated fails under a limit: with a limit of 1 and relevance
    order, adding the tag of a closer item replaces the item shown for the
    single tag. *)
Lemma limit_breaks_widening :
  let x := mkModel "org/x" (Some ["vision"]) 5 (1 # 10) None in
  let y := mkModel "org/y" (Some ["audio"]) 5 (1 # 2) None in
  applyFilters [x; y] ["audio"] (0, 100) "relevance" 1 = [y]
  /\ applyFilters [x; y] ["audio"; "vision"] (0, 100) "relevance" 1 = [x]
  /\ ~ incl (applyFilters [x; y] ["audio"] (0, 100) "relevance" 1)
            (applyFilters [x; y] ["audio"; "vision"] (0, 100) "relevance" 1).
Proof.
  intros x y. repeat split.
  intro H. specialize (H y (or_introl eq_refl)).
  destruct H as [E|[]]. discriminate E.
Qed.

(** ** Group statistics *)

Lemma mathMin_fold xs : forall acc,
  fold_left (fun acc x => Some (match acc with
                                | None => x
                                | Some y => Z.min y x
                                end)) xs (Some acc)
  = Some (fold_left Z.min xs acc).
Proof. induction xs as [|x xs IH]; intro acc; cbn; [reflexivity|apply IH]. Qed.

Lemma mathMax_fold xs : forall acc,
  fold_left (fun acc x => Some (match acc with
                                | None => x
                                | Some y => Z.max y x
                                end)) xs (Some acc)
  = Some (fold_left Z.max xs acc).
Proof. induction xs as [|x xs IH]; intro acc; cbn; [reflexivity|apply IH]. Qed.

Lemma fold_min_least xs : forall acc,
  let m := fold_left Z.min xs acc in
  m <= acc /\ (forall x, In x xs -> m <= x) /\ (m = acc \/ In m xs).
Proof.
  induction xs as [|x xs IH]; intro acc; cbn.
  - repeat split; [lia|intros ? []|auto].
  - destruct (IH (Z.min acc x)) as (H1 & H2 & H3). repeat split; [lia| |].
    + intros y [<-|H]; [lia|auto].
    + destruct H3 as [H3|H3]; [|auto].
      destruct (Z.min_spec acc x) as [[_ E]|[_ E]]; rewrite E in *;
        ((left; exact H3) || (right; left; symmetry; exact H3)).
Qed.

Lemma fold_max_greatest xs : forall acc,
  let m := fold_left Z.max xs acc in
  acc <= m /\ (forall x, In x xs -> x <= m) /\ (m = acc \/ In m xs).
Proof.
  induction xs as [|x xs IH]; intro acc; cbn.
  - repeat split; [lia|intros ? []|auto].
  - destruct (IH (Z.max acc x)) as (H1 & H2 & H3). repeat split; [lia| |].
    + intros y [<-|H]; [lia|auto].
    + destruct H3 as [H3|H3]; [|auto].
      destruct (Z.max_spec acc x) as [[_ E]|[_ E]]; rewrite E in *;
        ((left; exact H3) || (right; left; symmetry; exact H3)).
Qed.

Lemma mathMin_least x xs :
  exists m, Js.mathMin (x :: xs) = Some m
            /\ In m (x :: xs) /\ forall y, In y (x :: xs) -> m <= y.
Proof.
  unfold Js.mathMin. cbn [fold_left]. rewrite mathMin_fold.
  destruct (fold_min_least xs x) as (H1 & H2 & H3).
  eexists. split; [reflexivity|]. split.
  - destruct H3 as [->|H]; [now left|now right].
  - intros y [<-|H]; auto.
Qed.

Lemma mathMax_greatest x xs :
  exists m, Js.mathMax (x :: xs) = Some m
            /\ In m (x :: xs) /\ forall y, In y (x :: xs) -> y <= m.
Proof.
  unfold Js.mathMax. cbn [fold_left]. rewrite mathMax_fold.
  destruct (fold_max_greatest xs x) as (H1 & H2 & H3).
  eexists. split; [reflexivity|]. split.
  - destruct H3 as [->|H]; [now left|now right].
  - intros y [<-|H]; auto.
Qed.

(** C6: on a non-empty group [getGroupStats] returns the least and the
    greatest [downloads] of the group, the least [distance], and the tags
    of the earliest item at that distance (every item before it is strictly
    farther, every item after it at least as far); on the group
    [{downloads:10, distance:0.5}, {downloads:30, distance:0.2}] it returns
    10, 30, 0.2 and the tags of the second item. *)
Theorem getGroupStats_spec :
  (forall models, models <> [] ->
     exists stats,
       getGroupStats models = Some stats
       /\ (exists lo, GroupStats.minDownloads stats = Some lo
                      /\ In lo (map downloads models)
                      /\ forall m, In m models -> lo <= downloads m)
       /\ (exists hi, GroupStats.maxDownloads stats = Some hi
                      /\ In hi (map downloads models)
                      /\ forall m, In m models -> downloads m <= hi)
       /\ exists pre best post,
            models = pre ++ best :: post
            /\ GroupStats.bestRelevance stats = distance best
            /\ GroupStats.bestTags stats = Spec.tagsOf best
            /\ (forall m, In m pre -> (distance best < distance m)%Q)
            /\ (forall m, In m post -> (distance best <= distance m)%Q))
  /\ (forall id1 id2 tags1 tags2 text1 text2,
        getGroupStats [mkModel id1 tags1 10 (1 # 2) text1;
                       mkModel id2 (Some tags2) 30 (1 # 5) text2]
        = Some (GroupStats.mk (Some 10) (Some 30) (1 # 5) tags2)).
Proof.
  split; [|reflexivity].
  intros [|x l] Hne; [congruence|]. clear Hne.
  destruct (sort_head byDistance byDistance_total byDistance_trans x l)
    as (pre & best & post & Heq & Hhd & Hpre & Hpost).
  unfold getGroupStats.
  destruct (Js.sort byDistance (x :: l)) as [|h t] eqn:Es; [discriminate|].
  cbn in Hhd. injection Hhd as ->.
  eexists. split; [reflexivity|]. cbn [GroupStats.minDownloads
    GroupStats.maxDownloads GroupStats.bestRelevance GroupStats.bestTags].
  split; [|split].
  - cbn [map]. destruct (mathMin_least (downloads x) (map downloads l))
      as (lo & E & Hin & Hle).
    exists lo. repeat split; auto.
    intros m Hm. apply Hle. apply (in_map downloads) in Hm. exact Hm.
  - cbn [map]. destruct (mathMax_greatest (downloads x) (map downloads l))
      as (hi & E & Hin & Hle).
    exists hi. repeat split; auto.
    intros m Hm. apply Hle. apply (in_map downloads) in Hm. exact Hm.
  - exists pre, best, post. repeat split; auto.
    + intros m Hm. apply Qnot_le_lt. intro Hle.
      apply Qle_bool_iff in Hle. specialize (Hpre m Hm).
      unfold byDistance in Hpre. congruence.
    + intros m Hm. apply Qle_bool_iff. exact (Hpost m Hm).
Qed.

Lemma getGroupStats_spec_witness :
  let first := mkModel "org/m-7b" (Some ["pytorch"]) 4 (1 # 5) None in
  let later := mkModel "org/m-13b" (Some ["safetensors"]) 9 (1 # 5) None in
  exists stats, getGroupStats [first; later] = Some stats.
Proof.
  intros first later.
  destruct (proj1 getGroupStats_spec [first; later]) as (stats & H & _);
    [discriminate|].
  exists stats. exact H.
Defined.

Example relevance_order :
  let item d := mkModel "org/m" None 1 d None in
  map distance
    (applyFilters [item (9 # 10); item (1 # 10); item (5 # 10)] [] (0, 10)
       "relevance" 40)
  = [1 # 10; 5 # 10; 9 # 10].
Proof. reflexivity. Qed.

Example getGroupStats_tie :
  let first := mkModel "org/m-7b" (Some ["pytorch"]) 4 (1 # 5) None in
  let later := mkModel "org/m-13b" (Some ["safetensors"]) 9 (2 # 10) None in
  getGroupStats [first; later]
  = Some (GroupStats.mk (Some 4) (Some 9) (1 # 5) ["pytorch"]).
Proof. reflexivity. Qed.

(** ** Base-name extractor *)

Lemma split_lacks c s : Js.lacks c s = true -> Js.split c s = [s].
Proof.
  induction s as [|d s IH]; cbn; [reflexivity|].
  destruct (Ascii.eqb d c); cbn; [discriminate|].
  intro H. now rewrite (IH H).
Qed.

Lemma split_at c a b :
  Js.lacks c a = true ->
  Js.split c (a ++ String c b)%string = a :: Js.split c b.
Proof.
  induction a as [|d a IH]; cbn.
  - now rewrite Ascii.eqb_refl.
  - destruct (Ascii.eqb d c); cbn; [discriminate|].
    intro H. now rewrite (IH H).
Qed.

(** C7: for a namespace and a name without [/]: if the name has a hyphen,
    the base name is the namespace, [/], and the part of the name before
    its first hyphen; if the name has no hyphen, the identifier is its own
    base name, with a namespace and without one; a bare name with a hyphen
    maps to the part before its first hyphen. *)
Theorem getBaseModelName_cases :
  (forall ns pre rest,
     Js.lacks "/" ns = true -> Js.lacks "/" (pre ++ "-" ++ rest) = true ->
     Js.lacks "-" pre = true ->
     getBaseModelName (ns ++ "/" ++ pre ++ "-" ++ rest) = (ns ++ "/" ++ pre)%string)
  /\ (forall ns name,
        Js.lacks "/" ns = true -> Js.lacks "/" name = true ->
        Js.lacks "-" name = true ->
        getBaseModelName (ns ++ "/" ++ name) = (ns ++ "/" ++ name)%string)
  /\ (forall name,
        Js.lacks "/" name = true -> Js.lacks "-" name = true ->
        getBaseModelName name = name)
  /\ (forall pre rest,
        Js.lacks "/" (pre ++ "-" ++ rest) = true ->
        Js.lacks "-" pre = true ->
        getBaseModelName (pre ++ "-" ++ rest) = pre)
  /\ getBaseModelName "org/name-7b" = "org/name"
  /\ getBaseModelName "org/name" = "org/name"
  /\ getBaseModelName "gpt2" = "gpt2"
  /\ getBaseModelName "name-v2" = "name".
Proof.
  repeat split.
  - intros ns pre rest Hns Hname Hpre. unfold getBaseModelName.
    change (ns ++ "/" ++ pre ++ "-" ++ rest)%string
      with (ns ++ String "/" (pre ++ "-" ++ rest))%string.
    rewrite (split_at "/" ns _ Hns), (split_lacks "/" _ Hname).
    change (pre ++ "-" ++ rest)%string with (pre ++ String "-" rest)%string.
    now rewrite (split_at "-" pre rest Hpre).
  - intros ns name Hns Hname Hhy. unfold getBaseModelName.
    change (ns ++ "/" ++ name)%string with (ns ++ String "/" name)%string.
    rewrite (split_at "/" ns _ Hns), (split_lacks "/" _ Hname).
    now rewrite (split_lacks "-" _ Hhy).
  - intros name Hname Hhy. unfold getBaseModelName.
    now rewrite (split_lacks "/" _ Hname), (split_lacks "-" _ Hhy).
  - intros pre rest Hname Hpre. unfold getBaseModelName.
    rewrite (split_lacks "/" _ Hname).
    change (pre ++ "-" ++ rest)%string with (pre ++ String "-" rest)%string.
    now rewrite (split_at "-" pre rest Hpre).
Qed.

Lemma getBaseModelName_cases_witness :
  getBaseModelName ("meta-llama" ++ "/" ++ "Llama" ++ "-" ++ "3-8B")
  = ("meta-llama" ++ "/" ++ "Llama")%string
  /\ getBaseModelName ("openai" ++ "/" ++ "whisper") = ("openai" ++ "/" ++ "whisper")%string
  /\ getBaseModelName "distilgpt2" = "distilgpt2"
  /\ getBaseModelName ("bert" ++ "-" ++ "base-uncased") = "bert".
Proof.
  destruct getBaseModelName_cases as (H1 & H2 & H3 & H4 & _).
  split; [|split; [|split]].
  - apply H1; reflexivity.
  - apply H2; reflexivity.
  - apply H3; reflexivity.
  - apply H4; reflexivity.
Defined.

(** ** Unrecognized sort modes *)

(** C8: for a sort mode that is none of [relevance], [downloads-high] and
    [downloads-low], the sort step leaves the filtered sequence as it is
    and the pipeline returns its first [resultsLimit] items: a list, not an
    error. *)
Theorem unknown_sort_mode_passthrough rs selected range mode limit :
  mode <> "relevance" -> mode <> "downloads-high" -> mode <> "downloads-low" ->
  afterSort rs selected range mode = afterRangeFilter rs selected range
  /\ applyFilters rs selected range mode limit
     = Js.slice0 (afterRangeFilter rs selected range) limit
  /\ forall s, sortOption s = mode ->
       filteredResults (Page.filtersEffect s)
       = Js.slice0 (afterRangeFilter (results s) (selectedTags s)
                      (downloadRange s)) (resultsLimit s).
Proof.
  intros Hr Hh Hl.
  assert (E : forall rs selected range,
             afterSort rs selected range mode
             = afterRangeFilter rs selected range).
  { intros. unfold afterSort.
    apply String.eqb_neq in Hr, Hh, Hl. now rewrite Hr, Hh, Hl. }
  split; [apply E|]. split.
  - unfold applyFilters. now rewrite E.
  - intros s <-. cbn. unfold applyFilters. now rewrite E.
Qed.

Lemma unknown_sort_mode_passthrough_witness :
  let a := mkModel "org/a" None 1 (9 # 10) None in
  let b := mkModel "org/b" None 2 (1 # 10) None in
  applyFilters [a; b] [] (0, 10) "newest" 40
  = Js.slice0 (afterRangeFilter [a; b] [] (0, 10)) 40.
Proof.
  intros a b.
  apply (unknown_sort_mode_passthrough [a; b] [] (0, 10) "newest" 40);
    discriminate.
Defined.

(** ** Search failures *)

(** C9: when a request was made (non-blank query, configured backend) and
    it fails, the handler returns a state with exactly one error message
    and the raw result set it started from: for a response outside
    200..299 the message joins the status code and the status text, for a
    thrown [Error] it is the error's message, for any other thrown value it
    is the generic fallback; the handler itself always returns. *)
Theorem handleSearch_failure url s net :
  url <> EmptyString -> Js.blank (query s) = false ->
  let s' := handleSearch (Some url) net s in
  (forall response, net = inr response -> ok response = false ->
     error s' = Some ("Server responded with "
                      ++ Js.numberToString (status response)
                      ++ ": " ++ statusText response)%string
     /\ results s' = results s /\ loading s' = false)
  /\ (forall message, net = inl (ErrorObject message) ->
        error s' = Some message
        /\ results s' = results s /\ loading s' = false)
  /\ (net = inl NonError ->
        error s' = Some "An unknown error occurred"
        /\ results s' = results s /\ loading s' = false)
  /\ (forall response,
        ok response = false
        <-> (status response < 200 \/ 299 < status response)).
Proof.
  intros Hu Hq s'. subst s'. unfold handleSearch. rewrite Hq.
  unfold handleSearchSettle, tryBlock.
  destruct url as [|c url]; [congruence|].
  split; [|split; [|split]].
  - intros response -> Hok. rewrite Hok. cbn. auto.
  - intros message ->. cbn. auto.
  - intros ->. cbn. auto.
  - intro response. unfold ok. lia.
Qed.

Lemma handleSearch_failure_witness :
  let s := setResults [mkModel "org/a" None 1 (9 # 10) None]
             (setQuery "bert" initialState) in
  error (handleSearch (Some "http://backend")
           (inr (mkResponse 503 "Service Unavailable" (inr None))) s)
  = Some "Server responded with 503: Service Unavailable"
  /\ results (handleSearch (Some "http://backend")
                (inr (mkResponse 503 "Service Unavailable" (inr None))) s)
     = results s.
Proof.
  intro s.
  destruct (handleSearch_failure "http://backend" s
              (inr (mkResponse 503 "Service Unavailable" (inr None))))
    as (H & _); [discriminate|reflexivity|].
  destruct (H _ eq_refl eq_refl) as (He & Hr & _).
  split; [exact He|exact Hr].
Defined.

(** ** Group aggregator *)

Lemma getOwn_snoc o k v :
  JsObject.getOwn o k = None -> JsObject.getOwn (o ++ [(k, v)]) k = Some v.
Proof.
  induction o as [|[k' v'] o IH]; cbn.
  - now rewrite String.eqb_refl.
  - destruct (String.eqb k' k); [discriminate|exact IH].
Qed.

Lemma set_new o k v :
  JsObject.getOwn o k = None -> JsObject.set o k v = o ++ [(k, v)].
Proof.
  induction o as [|[k' v'] o IH]; cbn; [reflexivity|].
  destruct (String.eqb k' k); [discriminate|].
  intro H. now rewrite (IH H).
Qed.

Lemma set_snoc o k v v' :
  JsObject.getOwn o k = None ->
  JsObject.set (o ++ [(k, v)]) k v' = o ++ [(k, v')].
Proof.
  induction o as [|[k' w] o IH]; cbn.
  - now rewrite String.eqb_refl.
  - destruct (String.eqb k' k); [discriminate|].
    intro H. now rewrite (IH H).
Qed.

Lemma groupStep_addTo o m :
  Js.includes JsObject.PROTOTYPE_KEYS (Spec.baseNameOf m) = false ->
  groupStep o m = Some (addTo o (Spec.baseNameOf m) m).
Proof.
  intro Hp. unfold groupStep, addTo. fold (Spec.baseNameOf m).
  set (k := Spec.baseNameOf m) in *. unfold JsObject.get.
  destruct (JsObject.getOwn o k) as [items|] eqn:E.
  - cbn [JsObject.truthy negb]. now rewrite E.
  - rewrite Hp. cbn [JsObject.truthy negb].
    rewrite (set_new o k [] E), (getOwn_snoc o k [] E).
    now rewrite (set_snoc o k [] _ E).
Qed.

Lemma groupStep_inherited o m :
  JsObject.getOwn o (Spec.baseNameOf m) = None ->
  Js.includes JsObject.PROTOTYPE_KEYS (Spec.baseNameOf m) = true ->
  groupStep o m = None.
Proof.
  intros E Hp. unfold groupStep. fold (Spec.baseNameOf m).
  unfold JsObject.get. rewrite E, Hp. cbn [JsObject.truthy negb].
  now rewrite E.
Qed.

Lemma groupLoop_fold models : forall o,
  (forall m, In m models ->
             Js.includes JsObject.PROTOTYPE_KEYS (Spec.baseNameOf m) = false) ->
  groupLoop models o
  = Some (fold_left (fun o m => addTo o (Spec.baseNameOf m) m) models o).
Proof.
  induction models as [|m models IH]; intros o H; cbn; [reflexivity|].
  rewrite groupStep_addTo by (apply H; now left).
  apply IH. intros m' Hm'. apply H. now right.
Qed.

Lemma includes_cons a ks k :
  Js.includes (a :: ks) k = String.eqb k a || Js.includes ks k.
Proof. reflexivity. Qed.

Lemma distinct_In ks k : In k (Spec.distinct ks) <-> In k ks.
Proof.
  induction ks as [|a ks IH]; cbn; [tauto|].
  rewrite filter_In, IH, negb_true_iff, String.eqb_neq.
  destruct (String.eqb_spec k a) as [->|Hne]; intuition congruence.
Qed.

Lemma distinct_NoDup ks : NoDup (Spec.distinct ks).
Proof.
  induction ks as [|a ks IH]; cbn; constructor.
  - rewrite filter_In, String.eqb_refl. cbn. intros [_ H]. discriminate.
  - now apply NoDup_filter.
Qed.

Lemma distinct_snoc ks k :
  Spec.distinct (ks ++ [k])
  = if Js.includes ks k then Spec.distinct ks else Spec.distinct ks ++ [k].
Proof.
  induction ks as [|a ks IH]; [reflexivity|].
  cbn [app Spec.distinct]. rewrite IH, includes_cons.
  destruct (String.eqb_spec k a) as [->|Hne]; cbn [orb].
  - destruct (Js.includes ks a); [reflexivity|].
    rewrite filter_app. cbn. rewrite String.eqb_refl. cbn.
    now rewrite app_nil_r.
  - destruct (Js.includes ks k); [reflexivity|].
    rewrite filter_app. cbn.
    apply String.eqb_neq in Hne. now rewrite Hne.
Qed.

Lemma getOwn_keyed (g : string -> list ModelResult) ds k :
  JsObject.getOwn (map (fun k' => (k', g k')) ds) k
  = if Js.includes ds k then Some (g k) else None.
Proof.
  induction ds as [|a ds IH]; [reflexivity|].
  cbn [map JsObject.getOwn]. rewrite includes_cons, String.eqb_sym.
  destruct (String.eqb_spec k a) as [->|Hne]; [reflexivity|exact IH].
Qed.

Lemma set_keyed (g : string -> list ModelResult) ds k v :
  NoDup ds -> In k ds ->
  JsObject.set (map (fun k' => (k', g k')) ds) k v
  = map (fun k' => (k', if String.eqb k' k then v else g k')) ds.
Proof.
  induction ds as [|a ds IH]; intros Hnd Hin; [destruct Hin|].
  inversion Hnd as [|? ? Hna Hnd']; subst.
  cbn [map JsObject.set].
  destruct (String.eqb_spec a k) as [->|Hne].
  - f_equal. apply map_ext_in. intros k' Hk'.
    destruct (String.eqb_spec k' k) as [->|_]; [contradiction|reflexivity].
  - f_equal. apply IH; [exact Hnd'|]. destruct Hin; [contradiction|assumption].
Qed.

Lemma groupOf_snoc k models m :
  Spec.groupOf k (models ++ [m])
  = Spec.groupOf k models
    ++ (if String.eqb (Spec.baseNameOf m) k then [m] else []).
Proof. unfold Spec.groupOf. now rewrite filter_app. Qed.

Lemma groupOf_absent k models :
  ~ In k (map Spec.baseNameOf models) -> Spec.groupOf k models = [].
Proof.
  unfold Spec.groupOf. induction models as [|m models IH]; cbn; [reflexivity|].
  intro H. destruct (String.eqb_spec (Spec.baseNameOf m) k) as [E|_].
  - exfalso. apply H. now left.
  - apply IH. intro Hin. apply H. now right.
Qed.

Lemma groups_snoc models m :
  Spec.groups (models ++ [m])
  = addTo (Spec.groups models) (Spec.baseNameOf m) m.
Proof.
  unfold Spec.groups, addTo. set (k := Spec.baseNameOf m).
  rewrite getOwn_keyed, map_app. cbn [map]. fold k.
  rewrite distinct_snoc.
  destruct (Js.includes (map Spec.baseNameOf models) k) eqn:E.
  - assert (Hin : In k (map Spec.baseNameOf models)) by now apply includes_In.
    assert (E' : Js.includes (Spec.distinct (map Spec.baseNameOf models)) k
                 = true) by (apply includes_In; now apply distinct_In).
    rewrite E'.
    rewrite set_keyed; [|apply distinct_NoDup|now apply distinct_In].
    apply map_ext. intro k'. rewrite groupOf_snoc. fold k.
    destruct (String.eqb_spec k' k) as [->|Hne].
    + now rewrite String.eqb_refl.
    + apply not_eq_sym, String.eqb_neq in Hne. now rewrite Hne, app_nil_r.
  - assert (Hnin : ~ In k (map Spec.baseNameOf models)).
    { intro H. apply includes_In in H. congruence. }
    assert (E' : Js.includes (Spec.distinct (map Spec.baseNameOf models)) k
                 = false).
    { destruct (Js.includes (Spec.distinct (map Spec.baseNameOf models)) k)
        eqn:F; [|reflexivity].
      apply includes_In in F. apply (proj1 (distinct_In _ _)) in F.
      contradiction. }
    rewrite E', map_app. cbn [map]. f_equal.
    + apply map_ext_in. intros k' Hk'. rewrite groupOf_snoc. fold k.
      destruct (String.eqb_spec k k') as [Heq|_]; [|now rewrite app_nil_r].
      rewrite <- Heq in Hk'. apply (proj1 (distinct_In _ _)) in Hk'.
      contradiction.
    + rewrite groupOf_snoc, (groupOf_absent k models Hnin). fold k.
      now rewrite String.eqb_refl.
Qed.

Lemma fold_addTo_groups models :
  fold_left (fun o m => addTo o (Spec.baseNameOf m) m) models []
  = Spec.groups models.
Proof.
  induction models as [|m models IH] using rev_ind; [reflexivity|].
  now rewrite fold_left_app, IH, groups_snoc.
Qed.

(** On identifiers whose base name is not a property name inherited from
    [Object.prototype], the function returns one group per distinct base
    name, created in order of first occurrence, each holding the items of
    that base name in input order. *)
Lemma groupModelsByBaseName_groups models :
  (forall m, In m models ->
             Js.includes JsObject.PROTOTYPE_KEYS (Spec.baseNameOf m) = false) ->
  groupModelsByBaseName models = Some (Spec.groups models).
Proof.
  intro H. unfold groupModelsByBaseName.
  now rewrite groupLoop_fold, fold_addTo_groups.
Qed.

Lemma groups_keys models :
  map fst (Spec.groups models) = Spec.distinct (map Spec.baseNameOf models).
Proof.
  unfold Spec.groups. rewrite map_map. cbn. apply map_id.
Qed.

(** When moreover no base name is an array index, the page enumerates the
    groups in the order they were created. *)
Lemma entries_creation_order models :
  (forall m, In m models -> JsObject.arrayIndex (Spec.baseNameOf m) = None) ->
  JsObject.entries (Spec.groups models) = Spec.groups models.
Proof.
  intro H.
  assert (Hk : forall kv, In kv (Spec.groups models) ->
                          JsObject.isIndexKey kv = false).
  { intros kv Hkv. unfold JsObject.isIndexKey.
    apply (in_map fst) in Hkv. rewrite groups_keys in Hkv.
    apply (proj1 (distinct_In _ _)) in Hkv. apply in_map_iff in Hkv.
    destruct Hkv as (m & <- & Hm). now rewrite (H m Hm). }
  unfold JsObject.entries.
  induction (Spec.groups models) as [|kv l IH]; [reflexivity|].
  cbn [filter]. rewrite (Hk kv (or_introl eq_refl)). cbn [negb].
  assert (Hl : forall kv', In kv' l -> JsObject.isIndexKey kv' = false)
    by (intros kv' Hkv'; apply Hk; now right).
  specialize (IH Hl).
  destruct (filter JsObject.isIndexKey l) as [|x xs] eqn:Ef.
  - cbn in *. now rewrite IH.
  - exfalso. assert (Hx : In x (filter JsObject.isIndexKey l))
      by (rewrite Ef; now left).
    apply filter_In in Hx. destruct Hx as [Hx1 Hx2].
    rewrite (Hl x Hx1) in Hx2. discriminate.
Qed.

(** The groups the specification describes form a partition of the input:
    the keys are distinct, every item lies in the group of its base name,
    and a group holds only items of the input with that base name. *)
Lemma groups_partition models :
  NoDup (map fst (Spec.groups models))
  /\ (forall m, In m models ->
        In (Spec.baseNameOf m, Spec.groupOf (Spec.baseNameOf m) models)
           (Spec.groups models)
        /\ In m (Spec.groupOf (Spec.baseNameOf m) models))
  /\ (forall k g m, In (k, g) (Spec.groups models) -> In m g ->
        In m models /\ Spec.baseNameOf m = k).
Proof.
  split; [rewrite groups_keys; apply distinct_NoDup|]. split.
  - intros m Hm. split.
    + unfold Spec.groups. apply in_map_iff. exists (Spec.baseNameOf m).
      split; [reflexivity|]. apply distinct_In. now apply in_map.
    + unfold Spec.groupOf. apply filter_In. split; [exact Hm|].
      apply String.eqb_refl.
  - intros k g m Hkg Hm. unfold Spec.groups in Hkg.
    apply in_map_iff in Hkg. destruct Hkg as (k' & E & _).
    injection E as -> <-. unfold Spec.groupOf in Hm.
    apply filter_In in Hm. destruct Hm as [H1 H2].
    split; [exact H1|now apply String.eqb_eq].
Qed.

(** C5: the claim does not hold of the code on all inputs.  A base name
    that is an array index is enumerated before the names created earlier,
    and a base name that [Object.prototype] defines makes the function
    throw, so that no partition is returned. *)
Theorem grouping_order_and_inherited_names :
  let item id := mkModel id (Some ["pytorch"]) 1 (1 # 2) None in
  groupModelsByBaseName [item "gpt2"; item "2023-nlp-model"]
  = Some [("gpt2", [item "gpt2"]); ("2023", [item "2023-nlp-model"])]
  /\ option_map (map fst)
       (renderedGroups [item "gpt2"; item "2023-nlp-model"])
     = Some ["2023"; "gpt2"]
  /\ Spec.distinct
       (map Spec.baseNameOf [item "gpt2"; item "2023-nlp-model"])
     = ["gpt2"; "2023"]
  /\ groupModelsByBaseName [item "constructor"] = None.
Proof. cbv zeta. repeat split. Qed.

(** C10: the claim does not hold of the code on all inputs.  With an item
    whose base name [Object.prototype] defines, the function throws and
    builds no group, also for the other base names of the input; the effect
    that calls it throws with it. *)
Theorem grouping_throws_on_inherited_name :
  let item id := mkModel id (Some ["pytorch"]) 1 (1 # 2) None in
  let models := [item "org/x-1"; item "constructor-v1"] in
  Spec.groupOf "org/x" models = [item "org/x-1"]
  /\ groupModelsByBaseName models = None
  /\ filtersEffect (setResults models initialState) = None.
Proof. cbv zeta. repeat split. Qed.

(** * Further properties of the code *)

(** ** Tag display filter *)

Lemma toLowerCase_length s :
  String.length (Js.toLowerCase s) = String.length s.
Proof. induction s as [|c s IH]; cbn; [reflexivity|now rewrite IH]. Qed.

(** X1: on tags made of ASCII characters the display filter is
    case-insensitive: two such tags with the same lower-case form get the
    same verdict. *)
Theorem filterTagForDisplay_case_insensitive a b :
  Js.isAscii a = true -> Js.isAscii b = true ->
  Js.toLowerCase a = Js.toLowerCase b ->
  filterTagForDisplay a = filterTagForDisplay b.
Proof.
  intros _ _ H.
  assert (Hl : String.length a = String.length b)
    by (rewrite <- (toLowerCase_length a), <- (toLowerCase_length b);
        now rewrite H).
  unfold filterTagForDisplay. rewrite H, Hl.
  destruct a, b; try reflexivity; discriminate.
Qed.

Lemma filterTagForDisplay_case_insensitive_witness :
  filterTagForDisplay "Base_Model:Llama" = filterTagForDisplay "base_model:llama".
Proof.
  apply filterTagForDisplay_case_insensitive; reflexivity.
Defined.

(** ** Tag selection *)

Lemma toggle_selected tag s :
  selectedTags (toggleTagFilter tag s)
  = if Js.includes (selectedTags s) tag
    then filter (fun t => negb (String.eqb t tag)) (selectedTags s)
    else selectedTags s ++ [tag].
Proof. reflexivity. Qed.

(** X2: toggling a tag flips its membership in the selection, leaves the
    membership of every other tag as it was, and keeps a duplicate-free
    selection duplicate-free. *)
Theorem toggleTagFilter_flips tag s :
  let after := selectedTags (toggleTagFilter tag s) in
  (In tag after <-> ~ In tag (selectedTags s))
  /\ (forall t, t <> tag -> (In t after <-> In t (selectedTags s)))
  /\ (NoDup (selectedTags s) -> NoDup after).
Proof.
  cbv zeta. rewrite toggle_selected.
  destruct (Js.includes (selectedTags s) tag) eqn:E.
  - apply includes_In in E. split; [|split].
    + split; [|intro Hn; contradiction].
      intro H. apply filter_In in H. destruct H as [_ H].
      rewrite String.eqb_refl in H. discriminate.
    + intros t Ht. rewrite filter_In, negb_true_iff, String.eqb_neq. tauto.
    + intro H. now apply NoDup_filter.
  - assert (Hn : ~ In tag (selectedTags s))
      by (intro H; apply includes_In in H; congruence).
    split; [|split].
    + split; [intros _; exact Hn|].
      intros _. apply in_or_app. right. now left.
    + intros t Ht. rewrite in_app_iff. cbn. intuition congruence.
    + intro H. apply NoDup_app; [exact H|repeat constructor; intros []|].
      intros x Hx [<-|[]]. contradiction.
Qed.

Lemma toggleTagFilter_flips_witness :
  NoDup (selectedTags
           (toggleTagFilter "pytorch"
              (setSelectedTags ["nlp"; "pytorch"; "vision"] initialState))).
Proof.
  apply (toggleTagFilter_flips "pytorch"
           (setSelectedTags ["nlp"; "pytorch"; "vision"] initialState)).
  cbn. repeat constructor; cbn; intuition discriminate.
Defined.

Lemma filter_absent tag sel :
  ~ In tag sel -> filter (fun t => negb (String.eqb t tag)) sel = sel.
Proof.
  induction sel as [|a sel IH]; cbn; [reflexivity|].
  intro H. destruct (String.eqb_spec a tag) as [->|Hne].
  - exfalso. apply H. now left.
  - cbn. rewrite IH; [reflexivity|]. intro Hin. apply H. now right.
Qed.

(** X3: toggling a tag that is not selected, twice, gives back the state
    one started from. *)
Theorem toggleTagFilter_twice tag s :
  ~ In tag (selectedTags s) ->
  toggleTagFilter tag (toggleTagFilter tag s) = s.
Proof.
  intro Hn.
  assert (E : Js.includes (selectedTags s) tag = false).
  { destruct (Js.includes (selectedTags s) tag) eqn:E; [|reflexivity].
    apply includes_In in E. contradiction. }
  assert (E' : Js.includes (selectedTags s ++ [tag]) tag = true)
    by (apply includes_In, in_or_app; right; now left).
  unfold toggleTagFilter at 1. rewrite toggle_selected, E, E'.
  rewrite filter_app, (filter_absent tag _ Hn). cbn.
  rewrite String.eqb_refl. cbn. rewrite app_nil_r.
  destruct s. reflexivity.
Qed.

Lemma toggleTagFilter_twice_witness :
  toggleTagFilter "pytorch" (toggleTagFilter "pytorch" initialState)
  = initialState.
Proof.
  apply toggleTagFilter_twice. cbn. intros [].
Defined.

(** ** The search handler *)

Lemma handle_keeps_outcome_cells e s :
  results (handle e s) = results s
  /\ error (handle e s) = error s
  /\ loading (handle e s) = loading s.
Proof. destruct e; repeat split. Qed.

Lemma run_events_keep_outcome_cells events : forall s,
  results (run (map Ui events) s) = results s
  /\ error (run (map Ui events) s) = error s
  /\ loading (run (map Ui events) s) = loading s.
Proof.
  unfold run. induction events as [|e events IH]; intro s; cbn [map fold_left];
    [repeat split|].
  destruct (IH (step (Ui e) s)) as (H1 & H2 & H3).
  destruct (handle_keeps_outcome_cells e s) as (K1 & K2 & K3).
  cbn [step] in *. rewrite H1, H2, H3. repeat split; assumption.
Qed.

Lemma facetsEffect_keeps_outcome_cells s :
  results (facetsEffect s) = results s
  /\ error (facetsEffect s) = error s
  /\ loading (facetsEffect s) = loading s.
Proof.
  unfold facetsEffect. destruct (0 <? List.length (results s))%nat;
    [|repeat split].
  destruct (fold_left facetStep (results s) ([], 0)). repeat split.
Qed.

(** X4: a submission with a non-blank query, whatever events of the page
    occur while the request is in flight, ends in one of two ways,
    whatever the configuration and the network did: the result list is
    replaced and no error is shown, or the result list is the one before
    and an error message is shown; either way the loading flag is off. *)
Theorem handleSearch_outcome backendUrl net events s :
  Js.blank (query s) = false ->
  let s' := run (Submit :: map Ui events ++ [Settle backendUrl net]) s in
  loading s' = false
  /\ ((exists rs, tryBlock backendUrl net = inr rs
                  /\ results s' = rs /\ error s' = None)
      \/ (exists err, tryBlock backendUrl net = inl err
                      /\ results s' = results s
                      /\ error s' = Some (errorMessage err))).
Proof.
  intros Hq s'. subst s'. unfold run. cbn [fold_left].
  rewrite fold_left_app. cbn [fold_left].
  fold (run (map Ui events) (step Submit s)).
  set (mid := run (map Ui events) (step Submit s)).
  destruct (run_events_keep_outcome_cells events (step Submit s))
    as (Hr & He & _). fold mid in Hr, He.
  assert (Hr0 : results mid = results s)
    by (rewrite Hr; cbn; now rewrite Hq).
  assert (He0 : error mid = None) by (rewrite He; cbn; now rewrite Hq).
  cbn [step]. unfold handleSearchSettle.
  destruct (tryBlock backendUrl net) as [err|rs].
  - cbn. split; [reflexivity|]. right. exists err. auto.
  - destruct (facetsEffect_keeps_outcome_cells
                (setLoading false (setResults rs mid))) as (F1 & F2 & F3).
    rewrite F1, F2, F3. cbn. split; [reflexivity|].
    left. exists rs. auto.
Qed.

Lemma handleSearch_outcome_witness :
  let s' := run (Submit :: map Ui [ToggleTag "vision"; ChooseLimit 10]
                 ++ [Settle (Some "http://backend") (inl NonError)])
              (setQuery "bert" initialState) in
  loading s' = false.
Proof.
  intro s'.
  apply (handleSearch_outcome (Some "http://backend") (inl NonError)
           [ToggleTag "vision"; ChooseLimit 10]
           (setQuery "bert" initialState)).
  reflexivity.
Defined.

(** X5: edge cases of a submission.  With a blank query nothing happens.
    Without a configured backend the outcome of the network plays no part:
    the configuration message is shown and the result list is kept.  A
    successful response whose body has no [results] field gives the empty
    result list. *)
Theorem handleSearch_edges s :
  (Js.blank (query s) = true ->
     forall backendUrl net, handleSearch backendUrl net s = s
                            /\ submitSearch backendUrl net s = s)
  /\ (Js.blank (query s) = false ->
        forall backendUrl net,
          backendUrl = None \/ backendUrl = Some EmptyString ->
          error (handleSearch backendUrl net s)
          = Some "Backend URL is not configured in environment variables."
          /\ results (handleSearch backendUrl net s) = results s)
  /\ (Js.blank (query s) = false ->
        forall url response,
          url <> EmptyString -> ok response = true ->
          json response = inr None ->
          results (handleSearch (Some url) (inr response) s) = []
          /\ error (handleSearch (Some url) (inr response) s) = None).
Proof.
  split; [|split].
  - intros Hq backendUrl net. unfold submitSearch, handleSearch.
    now rewrite Hq.
  - intros Hq backendUrl net [-> | ->]; unfold handleSearch; rewrite Hq;
      split; reflexivity.
  - intros Hq url response Hu Hok Hj. unfold handleSearch. rewrite Hq.
    unfold handleSearchSettle, tryBlock.
    destruct url; [congruence|]. rewrite Hok, Hj. split; reflexivity.
Qed.

Lemma handleSearch_edges_witness :
  handleSearch (Some "http://backend") (inl NonError)
    (setQuery "   " initialState) = setQuery "   " initialState
  /\ results (handleSearch (Some "http://backend")
                (inr (mkResponse 200 "OK" (inr None)))
                (setResults [mkModel "org/a" None 1 (1 # 2) None]
                   (setQuery "bert" initialState))) = [].
Proof.
  split.
  - apply (proj1 (handleSearch_edges (setQuery "   " initialState)));
      reflexivity.
  - apply (proj2 (proj2 (handleSearch_edges
                           (setResults [mkModel "org/a" None 1 (1 # 2) None]
                              (setQuery "bert" initialState))))
             eq_refl "http://backend" (mkResponse 200 "OK" (inr None)));
      [discriminate|reflexivity|reflexivity].
Defined.

(** ** Facets and the default range *)

Lemma facetsEffect_cells s :
  results s <> [] ->
  results (facetsEffect s) = results s
  /\ selectedTags (facetsEffect s) = selectedTags s
  /\ availableTags (facetsEffect s)
     = Js.sort String.leb (fst (fold_left facetStep (results s) ([], 0)))
  /\ maxDownloads (facetsEffect s)
     = snd (fold_left facetStep (results s) ([], 0))
  /\ downloadRange (facetsEffect s) = (0, maxDownloads (facetsEffect s)).
Proof.
  intro Hne. unfold facetsEffect.
  destruct (results s) as [|r rs] eqn:E; [congruence|].
  cbn [List.length Nat.ltb Nat.leb].
  destruct (fold_left facetStep (r :: rs) ([], 0)). cbn.
  rewrite E. repeat split.
Qed.

(** X6: when no raw item has negative downloads, the range the facet
    effect sets excludes nothing: with no tag selected the range filter
    returns the raw list itself.  An item with negative downloads is
    excluded by every range whose lower end is not negative. *)
Theorem default_range_keeps_all s :
  ((forall r, In r (results s) -> 0 <= downloads r) ->
     let s' := facetsEffect s in
     afterRangeFilter (results s') [] (downloadRange s') = results s')
  /\ (forall r selected range mode limit,
        downloads r < 0 -> 0 <= fst range ->
        ~ In r (applyFilters (results s) selected range mode limit)).
Proof.
  split.
  - intros Hpos s'. subst s'.
    assert (Hc : results s = [] \/ results s <> [])
      by (destruct (results s); [now left|right; discriminate]).
    destruct Hc as [E|Hne].
    + unfold facetsEffect. rewrite E. cbn. now rewrite E.
    + destruct (facetsEffect_cells s Hne) as (Hr & _ & _ & Hm & Hd).
      rewrite Hr, Hd, Hm.
      destruct (facetFold_max (results s) [] 0) as (_ & Hub & _).
      unfold afterRangeFilter, afterTagFilter. cbn [List.length Nat.ltb Nat.leb].
      apply forallb_filter_id. apply forallb_forall. intros r Hr'.
      unfold inDownloadRange. cbn [fst snd].
      specialize (Hpos r Hr'). specialize (Hub r Hr'). lia.
  - intros r selected range mode limit Hneg Hlow Hin.
    apply applyFilters_In in Hin. unfold afterRangeFilter in Hin.
    apply filter_In in Hin. destruct Hin as [_ Hin].
    unfold inDownloadRange in Hin. lia.
Qed.

Lemma default_range_keeps_all_witness :
  let s := setResults [mkModel "org/a-1" None 7 (1 # 2) None;
                       mkModel "org/b" None 0 (1 # 5) None] initialState in
  afterRangeFilter (results (facetsEffect s)) []
    (downloadRange (facetsEffect s)) = results (facetsEffect s).
Proof.
  intro s. apply (proj1 (default_range_keeps_all s)).
  cbn. intros r [<-|[<-|[]]]; cbn; lia.
Defined.

(** ** The pipeline *)

Lemma firstn_NoDup {A : Type} (n : nat) (l : list A) :
  NoDup l -> NoDup (firstn n l).
Proof.
  revert n. induction l as [|x l IH]; intros [|n] H; cbn; try constructor.
  - inversion H; subst. intro Hin. apply firstn_In in Hin. contradiction.
  - inversion H; subst. now apply IH.
Qed.

Lemma firstn_sorted {A : Type} (R : A -> A -> Prop) (n : nat) (l : list A) :
  StronglySorted R l -> StronglySorted R (firstn n l).
Proof.
  revert n. induction l as [|x l IH]; intros [|n] H; cbn; try constructor.
  - inversion H; subst. now apply IH.
  - inversion H; subst. rewrite Forall_forall in *.
    intros y Hy. apply firstn_In in Hy. auto.
Qed.

Lemma slice0_In {A : Type} (l : list A) n x : In x (Js.slice0 l n) -> In x l.
Proof. unfold Js.slice0. destruct (n <? 0); apply firstn_In. Qed.

Lemma matchesTags_common selected m :
  matchesTags selected m = true ->
  exists t, In t selected /\ In t (Spec.tagsOf m).
Proof.
  unfold matchesTags, Spec.tagsOf. destruct (tags m) as [ts|]; [|discriminate].
  intro H. apply existsb_exists in H. destruct H as (t & Ht & Hin).
  exists t. split; [exact Ht|now apply includes_In].
Qed.

(** X7: the pipeline shows only what it was given and what passes the
    filters: every item of the output is a raw item whose downloads lie in
    the range and, when tags are selected, which carries one of them; the
    output is never longer than the raw list nor, for a non-negative limit,
    than the limit; and it repeats no item unless the raw list does. *)
Theorem applyFilters_sound rs selected range mode limit :
  let out := applyFilters rs selected range mode limit in
  (forall m, In m out ->
     In m rs
     /\ fst range <= downloads m <= snd range
     /\ (selected <> [] ->
         exists t, In t selected /\ In t (Spec.tagsOf m)))
  /\ (List.length out <= List.length rs)%nat
  /\ (0 <= limit -> Z.of_nat (List.length out) <= limit)
  /\ (NoDup rs -> NoDup out).
Proof.
  cbv zeta. split; [|split; [|split]].
  - intros m Hm. apply applyFilters_In in Hm.
    unfold afterRangeFilter, afterTagFilter in Hm.
    apply filter_In in Hm. destruct Hm as [Hm Hr].
    unfold inDownloadRange in Hr.
    destruct selected as [|t sel]; cbn [List.length Nat.ltb Nat.leb] in Hm.
    + repeat split; [exact Hm|lia|lia|congruence].
    + apply filter_In in Hm. destruct Hm as [Hm Ht].
      repeat split; [exact Hm|lia|lia|].
      intros _. now apply matchesTags_common.
  - unfold applyFilters, Js.slice0.
    pose proof (Permutation_length
                  (SortedAs_perm _ _ _
                     (afterSort_SortedAs rs selected range mode))) as Hp.
    assert (Hf : (List.length (afterRangeFilter rs selected range)
                  <= List.length rs)%nat).
    { unfold afterRangeFilter, afterTagFilter.
      destruct (0 <? List.length selected)%nat.
      - etransitivity; apply filter_length_le.
      - apply filter_length_le. }
    destruct (limit <? 0); rewrite length_firstn; lia.
  - intro Hl. unfold applyFilters. rewrite slice0_firstn by exact Hl.
    rewrite length_firstn. lia.
  - intro Hnd. unfold applyFilters, Js.slice0.
    assert (Hs : NoDup (afterSort rs selected range mode)).
    { eapply Permutation_NoDup;
        [exact (SortedAs_perm _ _ _ (afterSort_SortedAs rs selected range mode))|].
      unfold afterRangeFilter, afterTagFilter. apply NoDup_filter.
      destruct (0 <? List.length selected)%nat;
        [now apply NoDup_filter|exact Hnd]. }
    destruct (limit <? 0); now apply firstn_NoDup.
Qed.

Lemma applyFilters_sound_witness :
  let rs := [mkModel "org/a" (Some ["pytorch"]) 7 (1 # 2) None;
             mkModel "org/b" (Some ["vision"]) 9 (1 # 5) None;
             mkModel "org/c" None 3 (1 # 9) None] in
  Z.of_nat (List.length (applyFilters rs [] (0, 10) "relevance" 2)) <= 2.
Proof.
  intro rs.
  apply (applyFilters_sound rs [] (0, 10) "relevance" 2). lia.
Defined.

(** X8: raising the limit only appends: for limits [0 <= n <= m] the
    output under [n] is the first [n] items of the output under [m]. *)
Theorem applyFilters_limit_prefix rs selected range mode n m :
  0 <= n -> n <= m ->
  applyFilters rs selected range mode n
  = firstn (Z.to_nat n) (applyFilters rs selected range mode m).
Proof.
  intros Hn Hm. unfold applyFilters.
  rewrite !slice0_firstn by lia. rewrite firstn_firstn.
  f_equal. lia.
Qed.

Lemma applyFilters_limit_prefix_witness :
  let rs := map (fun d => mkModel "org/m" None d (1 # 2) None) [5; 1; 4; 2; 3] in
  applyFilters rs [] (0, 10) "downloads-high" 2
  = firstn 2 (applyFilters rs [] (0, 10) "downloads-high" 4).
Proof.
  intro rs.
  apply (applyFilters_limit_prefix rs [] (0, 10) "downloads-high" 2 4); lia.
Defined.

Lemma sort_of_sorted {A : Type} (le : A -> A -> bool) (l : list A) :
  StronglySorted (fun a b => le a b = true) l -> Js.sort le l = l.
Proof.
  induction 1 as [|x l Hs IH Hx]; [reflexivity|].
  cbn [Js.sort]. rewrite IH. destruct l as [|y l]; [reflexivity|].
  cbn [Js.insert]. inversion Hx; subst.
  match goal with H : le x y = true |- _ => now rewrite H end.
Qed.

Lemma afterRangeFilter_fixed rs selected range l :
  (forall m, In m l -> In m (afterRangeFilter rs selected range)) ->
  afterRangeFilter l selected range = l.
Proof.
  intro H. unfold afterRangeFilter, afterTagFilter in *.
  assert (Hr : forallb (inDownloadRange range) l = true).
  { apply forallb_forall. intros m Hm. specialize (H m Hm).
    apply filter_In in H. tauto. }
  destruct (0 <? List.length selected)%nat.
  - rewrite (forallb_filter_id (matchesTags selected) l).
    + now apply forallb_filter_id.
    + apply forallb_forall. intros m Hm. specialize (H m Hm).
      apply filter_In in H. destruct H as [H _].
      apply filter_In in H. tauto.
  - now apply forallb_filter_id.
Qed.

(** X9: the pipeline is idempotent on its own output: for a non-negative
    limit, feeding the output back in under the same filter state returns
    it unchanged. *)
Theorem applyFilters_idempotent rs selected range mode limit :
  0 <= limit ->
  let out := applyFilters rs selected range mode limit in
  applyFilters out selected range mode limit = out.
Proof.
  intros Hl out.
  assert (Hfix : afterRangeFilter out selected range = out).
  { apply (afterRangeFilter_fixed rs). intros m Hm.
    now apply applyFilters_In in Hm. }
  assert (Eout : out = firstn (Z.to_nat limit)
                         (afterSort rs selected range mode))
    by (subst out; unfold applyFilters; now rewrite slice0_firstn).
  assert (Hsort : afterSort out selected range mode = out).
  { unfold afterSort at 1. rewrite Hfix.
    pose proof (afterSort_SortedAs rs selected range mode) as Hs.
    unfold Spec.SortedAs in Hs.
    destruct (String.eqb mode "downloads-high") eqn:Eh.
    - apply String.eqb_eq in Eh. subst mode. cbn in Hs.
      destruct Hs as (_ & Hs & _).
      apply sort_of_sorted. rewrite Eout. now apply firstn_sorted.
    - destruct (String.eqb mode "downloads-low") eqn:El.
      + apply String.eqb_eq in El. subst mode. cbn in Hs.
        destruct Hs as (_ & Hs & _).
        apply sort_of_sorted. rewrite Eout. now apply firstn_sorted.
      + destruct (String.eqb mode "relevance") eqn:Er; [|reflexivity].
        destruct Hs as (_ & Hs & _).
        apply sort_of_sorted. rewrite Eout. now apply firstn_sorted. }
  unfold applyFilters at 1. rewrite Hsort, slice0_firstn by exact Hl.
  rewrite Eout, firstn_firstn. f_equal. lia.
Qed.

Lemma applyFilters_idempotent_witness :
  let rs := map (fun d => mkModel "org/m" (Some ["pytorch"]) d (1 # 2) None)
              [5; 1; 4; 2; 3] in
  applyFilters (applyFilters rs ["pytorch"] (2, 5) "downloads-low" 2)
    ["pytorch"] (2, 5) "downloads-low" 2
  = applyFilters rs ["pytorch"] (2, 5) "downloads-low" 2.
Proof.
  intro rs.
  apply (applyFilters_idempotent rs ["pytorch"] (2, 5) "downloads-low" 2).
  lia.
Defined.

(** ** Runs of the page *)

Lemma facetsEffect_wellFormed s : wellFormed s -> wellFormed (facetsEffect s).
Proof.
  intros (Hsel & Hsorted & Hdisp & Hmax).
  assert (Hc : results s = [] \/ results s <> [])
    by (destruct (results s); [now left|right; discriminate]).
  destruct Hc as [E|Hne].
  - unfold facetsEffect. rewrite E. cbn. repeat split; assumption.
  - destruct (facetsEffect_cells s Hne) as (_ & Hs & Ha & Hm & _).
    unfold wellFormed. rewrite Hs, Ha, Hm.
    pose proof (facetFold_tags (results s) [] 0) as Htags.
    pose proof (facetFold_NoDup (results s) [] 0 (NoDup_nil _)) as Hnd.
    destruct (facetFold_max (results s) [] 0) as (Hge & _ & _).
    repeat split; [exact Hsel| | |exact Hge].
    + apply strictly_sorted.
      * eapply Permutation_NoDup; [apply sort_perm|exact Hnd].
      * apply sort_sorted; [apply String.leb_total|apply string_leb_trans].
    + intros t Ht. apply Permutation_in with (l' := fst (fold_left facetStep (results s) ([], 0))) in Ht;
        [|symmetry; apply sort_perm].
      apply Htags in Ht. destruct Ht as [[]|(r & ts & _ & _ & _ & H)]. exact H.
Qed.

Lemma toggle_NoDup tag s :
  NoDup (selectedTags s) -> NoDup (selectedTags (toggleTagFilter tag s)).
Proof.
  intro H. rewrite toggle_selected.
  destruct (Js.includes (selectedTags s) tag) eqn:E; [now apply NoDup_filter|].
  apply NoDup_app; [exact H|repeat constructor; intros []|].
  intros x Hx [<-|[]]. apply includes_In in Hx. congruence.
Qed.

Lemma step_wellFormed st s : wellFormed s -> wellFormed (step st s).
Proof.
  intro H. destruct st as [e| |backendUrl net].
  - destruct H as (Hsel & Hsorted & Hdisp & Hmax).
    destruct e; cbn; try (repeat split; assumption).
    + repeat split; try assumption. now apply toggle_NoDup.
    + repeat split; try assumption. constructor.
  - cbn. destruct (Js.blank (query s)); [exact H|].
    destruct H as (Hsel & Hsorted & Hdisp & Hmax).
    repeat split; try assumption. constructor.
  - cbn. assert (Hs : wellFormed (handleSearchSettle backendUrl net s)).
    { unfold handleSearchSettle.
      destruct (tryBlock backendUrl net); exact H. }
    destruct (tryBlock backendUrl net); [exact Hs|].
    now apply facetsEffect_wellFormed.
Qed.

(** X10: whatever the user does and whatever the searches return, the
    state reached from the initial one has a duplicate-free tag selection,
    a strictly ascending list of available tags all of which pass the
    display filter, and a non-negative [maxDownloads]. *)
Theorem run_wellFormed steps : wellFormed (run steps initialState).
Proof.
  unfold run.
  assert (H0 : wellFormed initialState).
  { repeat split; cbn; try constructor; [intros ? []|lia]. }
  revert H0. generalize initialState.
  induction steps as [|st steps IH]; intros s Hs; cbn; [exact Hs|].
  apply IH. now apply step_wellFormed.
Qed.

(** ** The "Clear filters" button *)

(** X11: after [clearFilters] the button is hidden, and it stays hidden
    when only the result limit is changed afterwards; with an empty raw
    result set it is hidden whatever the filter cells hold; with a
    non-empty one and a range within the slider's bounds it is hidden
    exactly when no tag is selected, the whole range is selected and the
    order is by relevance. *)
Theorem clearFiltersVisible_spec s :
  clearFiltersVisible (clearFilters s) = false
  /\ (forall limit,
        clearFiltersVisible (setResultsLimit limit (clearFilters s)) = false)
  /\ (results s = [] -> clearFiltersVisible s = false)
  /\ (results s <> [] ->
      0 <= fst (downloadRange s) -> snd (downloadRange s) <= maxDownloads s ->
      (clearFiltersVisible s = false
       <-> selectedTags s = []
           /\ downloadRange s = (0, maxDownloads s)
           /\ sortOption s = "relevance")).
Proof.
  assert (H : clearFiltersVisible (clearFilters s) = false).
  { unfold clearFiltersVisible, clearFilters. cbn.
    rewrite Z.ltb_irrefl. cbn. apply andb_false_r. }
  split; [exact H|]. split; [intro limit; exact H|]. split.
  - intro E. unfold clearFiltersVisible. now rewrite E.
  - intros Hne Hlo Hhi. unfold clearFiltersVisible.
    destruct (results s) as [|r rs]; [congruence|].
    cbn [List.length Nat.ltb Nat.leb andb].
    destruct (downloadRange s) as [lo hi] eqn:Er. cbn [fst snd] in *.
    rewrite !orb_false_iff, negb_false_iff, String.eqb_eq, !Z.ltb_ge.
    destruct (selectedTags s) as [|t sel]; cbn.
    + split.
      * intros (((_ & H1) & H2) & H3). repeat split; [|exact H3].
        f_equal; lia.
      * intros (_ & H1 & H3). injection H1 as -> ->.
        repeat split; [lia|lia|exact H3].
    + split.
      * intros (((H0 & _) & _) & _). discriminate.
      * intros (H0 & _). discriminate.
Qed.

Lemma clearFiltersVisible_spec_witness :
  let s := setSortOption "downloads-low"
             (facetsEffect
                (setResults [mkModel "org/a-1" None 7 (1 # 2) None]
                   initialState)) in
  clearFiltersVisible s = false
  <-> selectedTags s = []
      /\ downloadRange s = (0, maxDownloads s)
      /\ sortOption s = "relevance".
Proof.
  intro s.
  apply (proj2 (proj2 (proj2 (clearFiltersVisible_spec s))));
    [discriminate|cbn; lia|cbn; lia].
Defined.

(** ** Base names *)

Lemma split_nonempty c s : Js.split c s <> [].
Proof.
  destruct s as [|d s]; cbn; [discriminate|].
  destruct (Ascii.eqb d c); [discriminate|].
  destruct (Js.split c s); discriminate.
Qed.

Lemma split_parts_lack c s :
  Forall (fun p => Js.lacks c p = true) (Js.split c s).
Proof.
  induction s as [|d s IH]; cbn; [repeat constructor|].
  destruct (Ascii.eqb d c) eqn:E; [constructor; [reflexivity|exact IH]|].
  destruct (Js.split c s) as [|h t]; cbn.
  - repeat constructor. cbn. now rewrite E.
  - inversion IH; subst. constructor; [|assumption].
    cbn. rewrite E. cbn. assumption.
Qed.

Lemma split_parts_keep_lack c d s :
  Js.lacks d s = true -> Forall (fun p => Js.lacks d p = true) (Js.split c s).
Proof.
  induction s as [|e s IH]; cbn; [repeat constructor|].
  intro H. apply andb_true_iff in H. destruct H as [He Hs].
  specialize (IH Hs).
  destruct (Ascii.eqb e c); [constructor; [reflexivity|exact IH]|].
  destruct (Js.split c s) as [|h t]; cbn.
  - repeat constructor. cbn. now rewrite He.
  - inversion IH; subst. constructor; [|assumption].
    cbn. rewrite He. cbn. assumption.
Qed.

Lemma split_single c s p : Js.split c s = [p] -> Js.lacks c s = true.
Proof.
  revert p. induction s as [|d s IH]; intros p H; [reflexivity|].
  cbn in H |- *. destruct (Ascii.eqb d c) eqn:E.
  - injection H as _ H. now apply split_nonempty in H.
  - destruct (Js.split c s) as [|h t] eqn:Es.
    + now apply split_nonempty in Es.
    + injection H as _ ->. cbn. now apply (IH h).
Qed.

(** The first piece of a split, and what it lacks. *)
Lemma split_head c s :
  exists h t, Js.split c s = h :: t /\ Js.lacks c h = true
              /\ forall d, Js.lacks d s = true -> Js.lacks d h = true.
Proof.
  pose proof (split_nonempty c s) as Hne.
  pose proof (split_parts_lack c s) as Hl.
  destruct (Js.split c s) as [|h t] eqn:E; [congruence|].
  exists h, t. split; [reflexivity|]. split; [now inversion Hl|].
  intros d Hd. pose proof (split_parts_keep_lack c d s Hd) as Hk.
  rewrite E in Hk. now inversion Hk.
Qed.

(** The shape of a base name: either a piece without [/] and [-], or a
    namespace without [/], a [/], and such a piece. *)
Lemma getBaseModelName_shape modelId :
  (exists b, getBaseModelName modelId = b
             /\ Js.lacks "/" modelId = true
             /\ Js.lacks "/" b = true /\ Js.lacks "-" b = true)
  \/ (exists ns b, getBaseModelName modelId = (ns ++ String "/" b)%string
                   /\ Js.lacks "/" modelId = false
                   /\ Js.lacks "/" ns = true
                   /\ Js.lacks "/" b = true /\ Js.lacks "-" b = true).
Proof.
  unfold getBaseModelName.
  pose proof (split_parts_lack "/" modelId) as Hl.
  pose proof (split_nonempty "/" modelId) as Hne.
  destruct (Js.lacks "/" modelId) eqn:Em.
  - left. rewrite (split_lacks "/" modelId Em).
    destruct (split_head "-" modelId) as (h & t & E & Hh & Hk).
    rewrite E. cbn. exists h. repeat split; auto.
  - right. destruct (Js.split "/" modelId) as [|p0 [|p1 rest]] eqn:E;
      [congruence| |].
    + rewrite (split_single "/" modelId p0 E) in Em. discriminate.
    + pose proof (Forall_inv Hl) as H0.
      pose proof (Forall_inv (Forall_inv_tail Hl)) as H1. cbn beta in H0, H1.
      destruct (split_head "-" p1) as (h & t & E1 & Hh & Hk).
      rewrite E1. cbn [hd]. exists p0, h. repeat split; auto.
Qed.

(** X12: the base-name extractor is idempotent: a base name is its own
    base name, so regrouping by the group keys changes nothing. *)
Theorem getBaseModelName_idempotent modelId :
  getBaseModelName (getBaseModelName modelId) = getBaseModelName modelId.
Proof.
  destruct (getBaseModelName_shape modelId)
    as [(b & -> & _ & Hs & Hh)|(ns & b & -> & _ & Hns & Hs & Hh)].
  - unfold getBaseModelName.
    now rewrite (split_lacks "/" b Hs), (split_lacks "-" b Hh).
  - unfold getBaseModelName.
    rewrite (split_at "/" ns b Hns), (split_lacks "/" b Hs).
    now rewrite (split_lacks "-" b Hh).
Qed.

(** X13: whatever follows a second [/] plays no part: an identifier
    [ns/name/rest] has the base name of [ns/name]. *)
Theorem getBaseModelName_extra_segments ns name rest :
  Js.lacks "/" ns = true -> Js.lacks "/" name = true ->
  getBaseModelName (ns ++ "/" ++ name ++ "/" ++ rest)
  = getBaseModelName (ns ++ "/" ++ name).
Proof.
  intros Hns Hname. unfold getBaseModelName.
  change (ns ++ "/" ++ name ++ "/" ++ rest)%string
    with (ns ++ String "/" (name ++ String "/" rest))%string.
  change (ns ++ "/" ++ name)%string with (ns ++ String "/" name)%string.
  rewrite !(split_at "/" ns _ Hns), (split_at "/" name rest Hname).
  rewrite (split_lacks "/" name Hname). reflexivity.
Qed.

Lemma getBaseModelName_extra_segments_witness :
  getBaseModelName ("org" ++ "/" ++ "model-7b" ++ "/" ++ "resolve/main")
  = getBaseModelName ("org" ++ "/" ++ "model-7b").
Proof.
  apply getBaseModelName_extra_segments; reflexivity.
Defined.

(** ** Groups *)

Lemma getOwn_set o k v k' :
  JsObject.getOwn (JsObject.set o k v) k'
  = if String.eqb k' k then Some v else JsObject.getOwn o k'.
Proof.
  induction o as [|[a w] o IH]; cbn [JsObject.set JsObject.getOwn].
  - now rewrite String.eqb_sym.
  - destruct (String.eqb_spec a k) as [->|Hak]; cbn [JsObject.getOwn].
    + destruct (String.eqb_spec k k') as [->|Hkk'].
      * now rewrite String.eqb_refl.
      * apply not_eq_sym, String.eqb_neq in Hkk'. now rewrite Hkk'.
    + rewrite IH. destruct (String.eqb_spec a k') as [->|Hak'];
        [|reflexivity].
      apply String.eqb_neq in Hak. now rewrite Hak.
Qed.

Lemma addTo_as_set o k m :
  addTo o k m
  = JsObject.set o k (match JsObject.getOwn o k with
                      | Some items => items ++ [m]
                      | None => [m]
                      end).
Proof.
  unfold addTo. destruct (JsObject.getOwn o k) eqn:E; [reflexivity|].
  symmetry. now apply set_new.
Qed.

Lemma groupLoop_throws models : forall o,
  (forall k v, JsObject.getOwn o k = Some v ->
               Js.includes JsObject.PROTOTYPE_KEYS k = false) ->
  (exists m, In m models
             /\ Js.includes JsObject.PROTOTYPE_KEYS (Spec.baseNameOf m) = true) ->
  groupLoop models o = None.
Proof.
  induction models as [|m models IH]; intros o Ho (x & Hx & Hp);
    [destruct Hx|].
  cbn [groupLoop].
  destruct (Js.includes JsObject.PROTOTYPE_KEYS (Spec.baseNameOf m)) eqn:Em.
  - rewrite groupStep_inherited; [reflexivity| |exact Em].
    destruct (JsObject.getOwn o (Spec.baseNameOf m)) eqn:E; [|reflexivity].
    rewrite (Ho _ _ E) in Em. discriminate.
  - rewrite (groupStep_addTo o m Em). apply IH.
    + intros k v. rewrite addTo_as_set, getOwn_set.
      destruct (String.eqb_spec k (Spec.baseNameOf m)) as [->|_];
        [intros _; exact Em|apply Ho].
    + destruct Hx as [<-|Hx]; [congruence|]. exists x. auto.
Qed.

Lemma groupModelsByBaseName_throws_iff_aux models :
  groupModelsByBaseName models = None
  <-> exists m, In m models
                /\ Js.includes JsObject.PROTOTYPE_KEYS (Spec.baseNameOf m)
                   = true.
Proof.
  split.
  - intro H.
    destruct (existsb (fun m => Js.includes JsObject.PROTOTYPE_KEYS
                                  (Spec.baseNameOf m)) models) eqn:E.
    + apply existsb_exists in E. exact E.
    + rewrite groupModelsByBaseName_groups in H; [discriminate|].
      intros m Hm.
      destruct (Js.includes JsObject.PROTOTYPE_KEYS (Spec.baseNameOf m))
        eqn:Em; [|reflexivity].
      assert (existsb (fun m => Js.includes JsObject.PROTOTYPE_KEYS
                                  (Spec.baseNameOf m)) models = true)
        by (apply existsb_exists; exists m; auto).
      congruence.
  - intro H. apply groupLoop_throws; [intros k v Hk; discriminate Hk|exact H].
Qed.

(** X14: [groupModelsByBaseName] throws exactly when some item has a base
    name that plain objects inherit from [Object.prototype]; on every other
    input it returns. *)
Theorem groupModelsByBaseName_throws_iff models :
  groupModelsByBaseName models = None
  <-> exists m, In m models
                /\ Js.includes JsObject.PROTOTYPE_KEYS (Spec.baseNameOf m)
                   = true.
Proof. apply groupModelsByBaseName_throws_iff_aux. Qed.

Lemma concat_set o k items m :
  JsObject.getOwn o k = Some items ->
  Permutation (List.concat (map snd (JsObject.set o k (items ++ [m]))))
              (List.concat (map snd o) ++ [m]).
Proof.
  induction o as [|[a w] o IH]; cbn; [discriminate|].
  destruct (String.eqb a k).
  - intro H. injection H as ->. cbn.
    rewrite <- !app_assoc. apply Permutation_app_head.
    apply Permutation_app_comm.
  - intro H. cbn. rewrite <- app_assoc. apply Permutation_app_head.
    now apply IH.
Qed.

Lemma concat_addTo o k m :
  Permutation (List.concat (map snd (addTo o k m))) (List.concat (map snd o) ++ [m]).
Proof.
  unfold addTo. destruct (JsObject.getOwn o k) as [items|] eqn:E.
  - now apply concat_set.
  - rewrite map_app, List.concat_app. cbn [map snd List.concat].
    now rewrite app_nil_r.
Qed.

Lemma groups_concat models :
  Permutation (List.concat (map snd (Spec.groups models))) models.
Proof.
  induction models as [|m models IH] using rev_ind; [constructor|].
  rewrite groups_snoc, concat_addTo. now apply Permutation_app_tail.
Qed.

Lemma groupOf_nonempty models k :
  In k (map Spec.baseNameOf models) -> Spec.groupOf k models <> [].
Proof.
  intro H. apply in_map_iff in H. destruct H as (m & <- & Hm).
  intro E. assert (Hin : In m (Spec.groupOf (Spec.baseNameOf m) models)).
  { unfold Spec.groupOf. apply filter_In. split; [exact Hm|].
    apply String.eqb_refl. }
  rewrite E in Hin. destruct Hin.
Qed.

(** X15: when no base name is inherited from [Object.prototype], the
    function returns a partition of its input: one group per distinct base
    name, created in order of first occurrence; each group is the
    non-empty subsequence of the items with that base name; and the groups
    together hold every input item exactly as often as the input does. *)
Theorem groupModelsByBaseName_partition models :
  (forall m, In m models ->
             Js.includes JsObject.PROTOTYPE_KEYS (Spec.baseNameOf m) = false) ->
  exists grouped,
    groupModelsByBaseName models = Some grouped
    /\ map fst grouped = Spec.distinct (map Spec.baseNameOf models)
    /\ NoDup (map fst grouped)
    /\ (forall k items, In (k, items) grouped ->
          items <> []
          /\ items = filter (fun m => String.eqb (getBaseModelName (model_id m)) k)
                       models)
    /\ Permutation (List.concat (map snd grouped)) models.
Proof.
  intro H. exists (Spec.groups models).
  split; [now apply groupModelsByBaseName_groups|].
  split; [apply groups_keys|].
  split; [rewrite groups_keys; apply distinct_NoDup|].
  split; [|apply groups_concat].
  intros k items Hin. unfold Spec.groups in Hin.
  apply in_map_iff in Hin. destruct Hin as (k' & E & Hk').
  injection E as -> <-. split; [|reflexivity].
  apply groupOf_nonempty. now apply (proj1 (distinct_In _ _)).
Qed.

Lemma groupModelsByBaseName_partition_witness :
  let item id := mkModel id None 1 (1 # 2) None in
  exists grouped,
    groupModelsByBaseName
      [item "org/m-7b"; item "gpt2"; item "org/m-13b"] = Some grouped
    /\ map fst grouped = ["org/m"; "gpt2"].
Proof.
  intro item.
  destruct (groupModelsByBaseName_partition
              [item "org/m-7b"; item "gpt2"; item "org/m-13b"])
    as (grouped & H1 & H2 & _).
  - intros m [<-|[<-|[<-|[]]]]; reflexivity.
  - exists grouped. split; [exact H1|exact H2].
Defined.

Lemma getGroupStats_defined models :
  models <> [] -> exists stats, getGroupStats models = Some stats.
Proof.
  intro Hne. unfold getGroupStats.
  pose proof (Permutation_length (sort_perm byDistance models)) as Hl.
  destruct (Js.sort byDistance models) as [|h t]; [|eexists; reflexivity].
  destruct models; [congruence|discriminate].
Qed.

(** X16: the statistics never throw on what the grouping returns: every
    group of a returned object, in the order the page enumerates them, is
    non-empty, and [getGroupStats] returns on it. *)
Theorem getGroupStats_on_groups models grouped :
  groupModelsByBaseName models = Some grouped ->
  forall k items, In (k, items) (JsObject.entries grouped) ->
    exists stats, getGroupStats items = Some stats.
Proof.
  intros Hg k items Hin.
  assert (Hsafe : forall m, In m models ->
            Js.includes JsObject.PROTOTYPE_KEYS (Spec.baseNameOf m) = false).
  { intros m Hm.
    destruct (Js.includes JsObject.PROTOTYPE_KEYS (Spec.baseNameOf m)) eqn:E;
      [|reflexivity].
    rewrite (proj2 (groupModelsByBaseName_throws_iff_aux models)) in Hg;
      [discriminate|exists m; auto]. }
  rewrite (groupModelsByBaseName_groups models Hsafe) in Hg.
  injection Hg as <-.
  assert (Hin' : In (k, items) (Spec.groups models)).
  { unfold JsObject.entries in Hin. apply in_app_or in Hin.
    destruct Hin as [Hin|Hin].
    - apply Permutation_in with (l' := filter JsObject.isIndexKey
                                         (Spec.groups models)) in Hin;
        [|symmetry; apply sort_perm].
      apply filter_In in Hin. tauto.
    - apply filter_In in Hin. tauto. }
  unfold Spec.groups in Hin'. apply in_map_iff in Hin'.
  destruct Hin' as (k' & E & Hk'). injection E as -> <-.
  apply getGroupStats_defined, groupOf_nonempty.
  now apply (proj1 (distinct_In _ _)).
Qed.

Lemma getGroupStats_on_groups_witness :
  let item id d := mkModel id None 1 d None in
  exists stats,
    getGroupStats [item "org/m-7b" (1 # 2); item "org/m-13b" (1 # 5)]
    = Some stats.
Proof.
  intro item.
  apply (getGroupStats_on_groups
           [item "org/m-7b" (1 # 2); item "gpt2" (1 # 3);
            item "org/m-13b" (1 # 5)]
           [("org/m", [item "org/m-7b" (1 # 2); item "org/m-13b" (1 # 5)]);
            ("gpt2", [item "gpt2" (1 # 3)])]
           eq_refl "org/m").
  cbn. now left.
Defined.

Lemma lacks_at c a b : Js.lacks c (a ++ String c b)%string = false.
Proof.
  induction a as [|d a IH]; cbn.
  - now rewrite Ascii.eqb_refl.
  - rewrite IH. apply andb_false_r.
Qed.

Lemma inherited_key_lacks_slash k :
  Js.includes JsObject.PROTOTYPE_KEYS k = true -> Js.lacks "/" k = true.
Proof.
  intro H. apply includes_In in H. cbn in H.
  repeat (destruct H as [<-|H]; [reflexivity|]). destruct H.
Qed.

Lemma digitsValue_lacks_slash s : forall acc n,
  JsObject.digitsValue acc s = Some n -> Js.lacks "/" s = true.
Proof.
  induction s as [|c s IH]; intros acc n H; [reflexivity|].
  cbn in H |- *. destruct (JsObject.isDigit c) eqn:Ed; [|discriminate].
  rewrite (IH _ _ H), andb_true_r.
  destruct (Ascii.eqb_spec c "/") as [->|_]; [discriminate Ed|reflexivity].
Qed.

Lemma index_key_lacks_slash k n :
  JsObject.arrayIndex k = Some n -> Js.lacks "/" k = true.
Proof.
  unfold JsObject.arrayIndex. destruct k as [|c rest]; [discriminate|].
  destruct (Ascii.eqb c "0" && negb (String.eqb rest EmptyString));
    [discriminate|].
  destruct (JsObject.digitsValue 0 (String c rest)) as [v|] eqn:E;
    [|discriminate].
  intros _. exact (digitsValue_lacks_slash _ _ _ E).
Qed.

Lemma namespaced_base_has_slash modelId :
  Js.lacks "/" modelId = false ->
  Js.lacks "/" (getBaseModelName modelId) = false.
Proof.
  intro H. destruct (getBaseModelName_shape modelId)
    as [(b & _ & Hm & _)|(ns & b & -> & _)]; [congruence|].
  apply lacks_at.
Qed.

(** X18: for identifiers that all carry a namespace (contain a [/]),
    grouping always returns, and the page enumerates the groups in the
    order in which their base names first occur in the input. *)
Theorem namespaced_grouping_safe models :
  (forall m, In m models -> Js.lacks "/" (model_id m) = false) ->
  exists grouped,
    groupModelsByBaseName models = Some grouped
    /\ renderedGroups models = Some grouped
    /\ map fst grouped = Spec.distinct (map Spec.baseNameOf models).
Proof.
  intro H. exists (Spec.groups models).
  assert (Hg : groupModelsByBaseName models = Some (Spec.groups models)).
  { apply groupModelsByBaseName_groups. intros m Hm.
    destruct (Js.includes JsObject.PROTOTYPE_KEYS (Spec.baseNameOf m)) eqn:E;
      [|reflexivity].
    apply inherited_key_lacks_slash in E. unfold Spec.baseNameOf in E.
    rewrite (namespaced_base_has_slash _ (H m Hm)) in E. discriminate. }
  split; [exact Hg|]. split; [|apply groups_keys].
  unfold renderedGroups. rewrite Hg. cbn. f_equal.
  apply entries_creation_order. intros m Hm.
  destruct (JsObject.arrayIndex (Spec.baseNameOf m)) as [n|] eqn:E;
    [|reflexivity].
  apply index_key_lacks_slash in E. unfold Spec.baseNameOf in E.
  rewrite (namespaced_base_has_slash _ (H m Hm)) in E. discriminate.
Qed.

Lemma namespaced_grouping_safe_witness :
  let item id := mkModel id None 1 (1 # 2) None in
  exists grouped,
    renderedGroups [item "2023/constructor-v1"; item "org/toString"]
    = Some grouped.
Proof.
  intro item.
  destruct (namespaced_grouping_safe
              [item "2023/constructor-v1"; item "org/toString"])
    as (grouped & _ & H & _).
  - intros m [<-|[<-|[]]]; reflexivity.
  - exists grouped. exact H.
Defined.

(** ** Tag badges of a group card *)

(** X19: a group card shows at most five tags, each a displayable tag of
    the most relevant item, and the count on its "+n" badge, present
    exactly when there are more than five, makes up the number of
    displayable tags. *)
Theorem groupCardTags_counts stats :
  let displayable := filter filterTagForDisplay (GroupStats.bestTags stats) in
  let shown := fst (groupCardTags stats) in
  let more := snd (groupCardTags stats) in
  (List.length shown <= 5)%nat
  /\ (forall t, In t shown ->
        In t (GroupStats.bestTags stats) /\ filterTagForDisplay t = true)
  /\ (more = None <-> (List.length displayable <= 5)%nat)
  /\ Z.of_nat (List.length shown)
     + match more with Some n => n | None => 0 end
     = Z.of_nat (List.length displayable)
  /\ exists hidden, displayable = shown ++ hidden.
Proof.
  cbv zeta. unfold groupCardTags. cbn [fst snd].
  set (d := filter filterTagForDisplay (GroupStats.bestTags stats)).
  rewrite (slice0_firstn d 5) by lia.
  change (Z.to_nat 5) with 5%nat.
  split; [|split; [|split; [|split]]].
  - rewrite length_firstn. lia.
  - intros t Ht. apply firstn_In in Ht. subst d. now apply filter_In in Ht.
  - destruct (5 <? List.length d)%nat eqn:E.
    + apply Nat.ltb_lt in E. split; [discriminate|lia].
    + apply Nat.ltb_ge in E. split; [intros _; exact E|reflexivity].
  - rewrite length_firstn.
    destruct (5 <? List.length d)%nat eqn:E.
    + apply Nat.ltb_lt in E. lia.
    + apply Nat.ltb_ge in E. lia.
  - exists (skipn 5 d). symmetry. apply firstn_skipn.
Qed.

(** ** The filter effect with grouping *)

(** X20: the filter effect of the grouping revision throws exactly when an
    item that survives the filters, the sort and the limit has a base name
    inherited from [Object.prototype]; otherwise it stores the pipeline
    output and its groups and touches neither the raw results nor the
    filter state. *)
Theorem filtersEffect_outcome s :
  let filtered := applyFilters (results s) (selectedTags s) (downloadRange s)
                    (sortOption s) (resultsLimit s) in
  (filtersEffect s = None
   <-> exists m, In m filtered
                 /\ Js.includes JsObject.PROTOTYPE_KEYS (Spec.baseNameOf m)
                    = true)
  /\ (forall s', filtersEffect s = Some s' ->
        filteredResults s' = filtered
        /\ groupModelsByBaseName filtered = Some (groupedResults s')
        /\ results s' = results s
        /\ filterState s' = filterState s).
Proof.
  cbv zeta. unfold filtersEffect.
  set (filtered := applyFilters (results s) (selectedTags s) (downloadRange s)
                     (sortOption s) (resultsLimit s)).
  pose proof (groupModelsByBaseName_throws_iff_aux filtered) as Hiff.
  destruct (groupModelsByBaseName filtered) as [grouped|] eqn:E.
  - split.
    + split; [discriminate|]. intro H. apply Hiff in H. discriminate.
    + intros s' Hs'. injection Hs' as <-. cbn. repeat split.
  - split.
    + split; [intros _; now apply Hiff|reflexivity].
    + intros s' Hs'. discriminate.
Qed.

Lemma filtersEffect_outcome_witness :
  let s := setResults [mkModel "org/a-1" None 7 (1 # 2) None;
                       mkModel "org/b" None 0 (1 # 5) None] initialState in
  exists s', filtersEffect s = Some s'
             /\ results s' = results s.
Proof.
  intro s. eexists. split; [reflexivity|].
  apply (proj2 (filtersEffect_outcome s) _ eq_refl).
Defined.
